(** * Cupboard: a persistent dictionary over sqlite and json

    A shallow embedding of [cupboard.py] and the properties of its
    mapping engine.  The development follows the layout of the module:

    - Python values and the object heap (lists and dicts are heap objects,
      so that a value handed out by the store and the entry kept in the
      write-back cache are the same object);
    - the two external collaborators, the [json] codec and the [sqlite3]
      connection, at the level the module uses them;
    - the methods of class [Cupboard], written in a state-and-exception
      monad;
    - the theorems. *)

From Stdlib Require Import Ascii.
From stdpp Require Import gmap strings list fin_maps pretty.

#[local] Set Warnings "-clear-no-such-hyp".

Open Scope Z_scope.

(** ** Python values *)

(** Object identities.  Lists and dicts live in the heap and are referred
    to by location; scalars are immutable and carried by value. *)
Definition loc := positive.

(** A float is carried by its IEEE-754 binary64 bit pattern; the
    development never computes with floats. *)
Definition float64 := N.

Inductive value :=
| VNone
| VBool (b : bool)
| VInt (z : Z)
| VFloat (f : float64)
| VStr (s : string)     (* a [str] sqlite can store as TEXT *)
| VRef (l : loc)        (* a list or a dict object *)
| VOther (n : nat).     (* any object json cannot serialise and sqlite3
                           cannot bind: a set, an [object()], ... *)

Inductive obj :=
| OList (items : list value)
| ODict (items : list (value * value)).  (* insertion-ordered *)

Abbreviation heap := (gmap loc obj).

Global Instance value_eq_dec : EqDecision value.
Proof. solve_decision. Defined.

(** [isinstance(key, str)] *)
Definition is_str (v : value) : bool :=
  match v with VStr _ => true | _ => false end.

(** [isinstance(value, (dict, list))] *)
Definition is_dict_or_list (v : value) : bool :=
  match v with VRef _ => true | _ => false end.

(** ** Exceptions *)

Inductive exn :=
| CupboardClosedError
| TypeError_key            (* keys in a Cupboard must always be strings *)
| TypeError_json           (* json: object / dict key not serialisable *)
| TypeError_unhashable     (* dict.pop on a list or a dict *)
| ValueError_circular      (* json: circular reference detected *)
| ValueError_decode        (* json.loads on text that is not json *)
| KeyError (k : string)
| OverflowError            (* sqlite3: int too large for INTEGER *)
| ProgrammingError         (* sqlite3: parameter type not supported *)
| NotImplementedError
| Stuck.                   (* not a Python exception: a dangling location
                              or exhausted fuel; unreachable, see
                              [to_json_fuel] *)

Inductive result (A : Type) :=
| Ok (a : A)
| Raise (e : exn).
Arguments Ok {A} a.
Arguments Raise {A} e.

Definition result_bind {A B} (r : result A) (f : A → result B) : result B :=
  match r with Ok a => f a | Raise e => Raise e end.

Fixpoint result_mapM {A B} (f : A → result B) (l : list A) : result (list B) :=
  match l with
  | [] => Ok []
  | x :: l' =>
      result_bind (f x) (λ y,
      result_bind (result_mapM f l') (λ ys, Ok (y :: ys)))
  end.

(** ** Python dicts with string keys (the cache) *)

(** An insertion-ordered association list with the operations of [dict]
    the module uses. *)
Abbreviation pydict := (list (string * value)).

Fixpoint dict_get (k : string) (d : pydict) : option value :=
  match d with
  | [] => None
  | (k', v) :: d' => if decide (k = k') then Some v else dict_get k d'
  end.

(** [d.pop(k, None)] *)
Definition dict_pop (k : string) (d : pydict) : pydict :=
  filter (λ kv, kv.1 ≠ k) d.

(** [d[k] = v]: replaces in place when the key is there, appends
    otherwise. *)
Fixpoint dict_set (k : string) (v : value) (d : pydict) : pydict :=
  match d with
  | [] => [(k, v)]
  | (k', v') :: d' =>
      if decide (k = k') then (k, v) :: d' else (k', v') :: dict_set k v d'
  end.

(** ** The json data model *)

#[warnings="-register-all"] Inductive jtree :=
| JNull
| JBool (b : bool)
| JInt (z : Z)
| JFloat (f : float64)
| JStr (s : string)
| JList (ts : list jtree)
| JDict (kts : list (string * jtree)).

(** Depth of nesting of containers. *)
Fixpoint jdepth (t : jtree) : nat :=
  match t with
  | JList ts => S (foldr (λ t n, Nat.max (jdepth t) n) 0%nat ts)
  | JDict kts => S (foldr (λ kt n, Nat.max (jdepth kt.2) n) 0%nat kts)
  | _ => 0%nat
  end.

(** ** The external collaborators

    The module delegates to [json] for the text of a value and to
    [sqlite3] for storage.  What it needs from them that is not fixed
    by the module itself is gathered in one interface: the text of a
    json tree and its inverse, Python's [repr] of a float (json uses it
    for a float used as a dict key) and sqlite's rendering of a REAL as
    TEXT (used when a REAL is compared with the TEXT column [key]). *)
Class Collaborators := {
  render : jtree → string;
  parse : string → option jtree;
  float_repr : float64 → string;
  real_text : float64 → string;
}.

Section cupboard.
Context `{Collaborators}.

(** *** json.dumps *)

(** The text json gives a dict key: [str] as it is, the other scalars
    coerced, everything else refused ([skipkeys] is off). *)
Definition json_key (k : value) : result string :=
  match k with
  | VStr s => Ok s
  | VNone => Ok "null"%string
  | VBool true => Ok "true"%string
  | VBool false => Ok "false"%string
  | VInt z => Ok (pretty z)
  | VFloat f => Ok (float_repr f)
  | VRef _ | VOther _ => Raise TypeError_json
  end.

(** The encoder walks the object graph.  [markers] holds the containers
    on the path from the root ([check_circular] is on): meeting one of
    them again raises [ValueError].  Each container entered leaves one
    location fewer to enter, so [fuel] bounds the depth. *)
Fixpoint to_json (fuel : nat) (markers : gset loc) (h : heap) (v : value)
  : result jtree :=
  match v with
  | VNone => Ok JNull
  | VBool b => Ok (JBool b)
  | VInt z => Ok (JInt z)
  | VFloat f => Ok (JFloat f)
  | VStr s => Ok (JStr s)
  | VOther _ => Raise TypeError_json
  | VRef l =>
      if decide (l ∈ markers) then Raise ValueError_circular else
      match fuel with
      | O => Raise Stuck
      | S fuel' =>
          let inner := to_json fuel' ({[l]} ∪ markers) h in
          match h !! l with
          | None => Raise Stuck
          | Some (OList items) =>
              result_bind (result_mapM inner items) (λ ts, Ok (JList ts))
          | Some (ODict items) =>
              result_bind
                (result_mapM (λ kv : value * value,
                   result_bind (json_key kv.1) (λ k,
                   result_bind (inner kv.2) (λ t, Ok (k, t)))) items)
                (λ kts, Ok (JDict kts))
          end
      end
  end.

Definition to_json_fuel (h : heap) : nat := S (size (dom h)).

Definition json_dumps (h : heap) (v : value) : result string :=
  result_bind (to_json (to_json_fuel h) ∅ h v) (λ t, Ok (render t)).

(** *** json.loads *)

(** The decoder builds fresh objects, children first.  A repeated key of
    a json object keeps its first position and its last value, as
    [dict] assignment does. *)
Definition alloc_list {A} (f : A → heap → value * heap)
  : list A → heap → list value * heap :=
  fix go ts h :=
    match ts with
    | [] => ([], h)
    | t :: ts' =>
        let '(v, h1) := f t h in
        let '(vs, h2) := go ts' h1 in
        (v :: vs, h2)
    end.

Definition alloc_items {A} (f : A → heap → value * heap)
  : list (string * A) → pydict → heap → pydict * heap :=
  fix go kts d h :=
    match kts with
    | [] => (d, h)
    | (k, t) :: kts' =>
        let '(v, h1) := f t h in
        go kts' (dict_set k v d) h1
    end.

Fixpoint alloc (t : jtree) (h : heap) : value * heap :=
  match t with
  | JNull => (VNone, h)
  | JBool b => (VBool b, h)
  | JInt z => (VInt z, h)
  | JFloat f => (VFloat f, h)
  | JStr s => (VStr s, h)
  | JList ts =>
      let '(vs, h1) := alloc_list alloc ts h in
      let l := fresh (dom h1) in
      (VRef l, <[l := OList vs]> h1)
  | JDict kts =>
      let '(d, h1) := alloc_items alloc kts [] h in
      let l := fresh (dom h1) in
      (VRef l, <[l := ODict (prod_map VStr id <$> d)]> h1)
  end.

Definition json_loads (jstr : string) (h : heap) : result (value * heap) :=
  match parse jstr with
  | None => Raise ValueError_decode
  | Some t => Ok (alloc t h)
  end.

(** *** sqlite3 *)

(** What a Python value becomes when bound to a [?]: [None] is NULL, an
    [int] (or [bool]) an INTEGER when it fits 64 bits, a [float] a REAL,
    a [str] a TEXT; lists, dicts and other objects are refused. *)
Inductive sqlval :=
| SqlNull
| SqlInteger (z : Z)
| SqlReal (f : float64)
| SqlText (s : string).

Definition sql_bind (v : value) : result sqlval :=
  match v with
  | VNone => Ok SqlNull
  | VBool b => Ok (SqlInteger (if b then 1 else 0))
  | VInt z =>
      if bool_decide (- 2 ^ 63 ≤ z < 2 ^ 63) then Ok (SqlInteger z)
      else Raise OverflowError
  | VFloat f => Ok (SqlReal f)
  | VStr s => Ok (SqlText s)
  | VRef _ | VOther _ => Raise ProgrammingError
  end.

(** [key = ?]: the column has TEXT affinity and the parameter none, so
    the parameter is converted to TEXT before the comparison; NULL
    equals nothing. *)
Definition key_matching (x : sqlval) : option string :=
  match x with
  | SqlNull => None
  | SqlInteger z => Some (pretty z)
  | SqlReal f => Some (real_text f)
  | SqlText s => Some s
  end.

End cupboard.

(** ** The store *)

Definition connection := nat.

(** The slots of a [Cupboard] object. *)
Record Cupboard := {
  writeback : bool;
  _cache : option pydict;       (* [None] once closed *)
  _conn : option connection;    (* [None] once closed *)
}.

(** What lives outside the object: the Python heap, the committed rows
    of table [cupboard] in the backing file, the number of connections
    opened on the file so far and the log of [Connection.close()]
    calls. *)
Record world := {
  objects : heap;
  rows : gmap string string;
  opened : nat;
  released : list connection;
}.

Record state := {
  self : Cupboard;
  env : world;
}.

Definition set_cache (c : option pydict) (s : state) : state :=
  {| self := {| writeback := writeback (self s); _cache := c;
                _conn := _conn (self s) |};
     env := env s |}.

Definition set_conn (c : option connection) (s : state) : state :=
  {| self := {| writeback := writeback (self s); _cache := _cache (self s);
                _conn := c |};
     env := env s |}.

Definition set_objects (h : heap) (s : state) : state :=
  {| self := self s;
     env := {| objects := h; rows := rows (env s); opened := opened (env s);
               released := released (env s) |} |}.

Definition set_rows (r : gmap string string) (s : state) : state :=
  {| self := self s;
     env := {| objects := objects (env s); rows := r;
               opened := opened (env s);
               released := released (env s) |} |}.

Definition set_released (l : list connection) (s : state) : state :=
  {| self := self s;
     env := {| objects := objects (env s); rows := rows (env s);
               opened := opened (env s); released := l |} |}.

(** *** The monad of methods: state and exceptions *)

Definition M (A : Type) : Type := state → result A * state.

Definition ret {A} (a : A) : M A := λ s, (Ok a, s).
Definition raise {A} (e : exn) : M A := λ s, (Raise e, s).
Definition bind {A B} (m : M A) (f : A → M B) : M B := λ s,
  match m s with
  | (Ok a, s') => f a s'
  | (Raise e, s') => (Raise e, s')
  end.

Notation "x <- m ;; k" := (bind m (λ x, k))
  (at level 100, m at next level, right associativity,
   format "'[v' x  <-  m  ;;  '/' k ']'").
Notation "m ;;; k" := (bind m (λ _, k))
  (at level 100, right associativity).

Definition modify (f : state → state) : M unit := λ s, (Ok tt, f s).
Definition lift {A} (r : result A) : M A := λ s, (r, s).

(** [try: body  except CupboardClosedError: pass] *)
Definition try_except_closed (body : M unit) : M unit := λ s,
  match body s with
  | (Raise CupboardClosedError, s') => (Ok tt, s')
  | r => r
  end.

(** [try: body  finally: fin] *)
Definition try_finally {A} (body : M A) (fin : M unit) : M A := λ s,
  match body s with
  | (r, s') =>
      match fin s' with
      | (Ok _, s'') => (r, s'')
      | (Raise e, s'') => (Raise e, s'')
      end
  end.

Fixpoint for_each {A} (l : list A) (body : A → M unit) : M unit :=
  match l with
  | [] => ret tt
  | x :: l' => body x ;;; for_each l' body
  end.

Section cupboard_methods.
Context `{Collaborators}.

(** *** Properties [cache] and [conn] *)

Definition cache : M pydict := λ s,
  match _cache (self s) with
  | None => (Raise CupboardClosedError, s)
  | Some c => (Ok c, s)
  end.

Definition conn : M connection := λ s,
  match _conn (self s) with
  | None => (Raise CupboardClosedError, s)
  | Some c => (Ok c, s)
  end.

(** *** The queries *)

(** [conn.execute(_GET_QUERY, (key,)).fetchone()] for a [str] key. *)
Definition execute_GET (c : connection) (key : string) : M (option string) :=
  λ s, (Ok (rows (env s) !! key), s).

(** [conn.execute(_SET_QUERY, (key, jstr))] for two [str] parameters. *)
Definition execute_SET (c : connection) (key jstr : string) : M unit :=
  modify (λ s, set_rows (<[key := jstr]> (rows (env s))) s).

(** [conn.execute(_DEL_QUERY, (key,))]: the key is whatever the caller
    passed. *)
Definition execute_DEL (c : connection) (key : value) : M unit :=
  x <- lift (sql_bind key) ;;
  match key_matching x with
  | None => ret tt
  | Some k => modify (λ s, set_rows (delete k (rows (env s))) s)
  end.

(** [conn.execute(_ITER_QUERY)], drained; sqlite promises no order and
    the model takes the order of the map. *)
Definition execute_ITER (c : connection) : M (list string) :=
  λ s, (Ok (elements (dom (rows (env s)))), s).

(** [conn.execute(_LEN_QUERY).fetchone()]: COUNT always yields a row. *)
Definition execute_LEN (c : connection) : M (option nat) :=
  λ s, (Ok (Some (size (rows (env s)))), s).

(** [with self.conn: body]: the property is read first; the block
    commits when [body] returns and rolls the rows back when it
    raises. *)
Definition with_conn {A} (body : M A) : M A := λ s,
  match conn s with
  | (Raise e, s') => (Raise e, s')
  | (Ok _, s') =>
      match body s' with
      | (Ok a, s'') => (Ok a, s'')
      | (Raise e, s'') => (Raise e, set_rows (rows (env s')) s'')
      end
  end.

(** [Connection.close()] *)
Definition conn_close (c : connection) : M unit :=
  modify (λ s, set_released (c :: released (env s)) s).

(** *** Methods of [Cupboard] *)

(** [Cupboard(filename, flag, writeback)], where [filename] names the
    backing file of [w]: a new connection is made and the table, which
    [CREATE TABLE IF NOT EXISTS] leaves alone when it is there, holds
    the rows of [w]. *)
Definition __init__ (flag : string) (wb : bool) (w : world) : result state :=
  if decide (flag = "c"%string) then
    Ok {| self := {| writeback := wb; _cache := Some [];
                     _conn := Some (opened w) |};
          env := {| objects := objects w; rows := rows w;
                    opened := S (opened w); released := released w |} |}
  else Raise NotImplementedError.

Definition open (flag : string) (wb : bool) (w : world) : result state :=
  __init__ flag wb w.

(** [list(iter(self))]: the generator is run to its end at once, so
    that the check of [conn], which Python makes at the first [next],
    is made here. *)
Definition __iter__ : M (list string) :=
  c <- conn ;; execute_ITER c.

Definition __len__ : M nat :=
  c <- conn ;;
  row <- execute_LEN c ;;
  match row with
  | None => ret 0%nat
  | Some n => ret n
  end.

Definition _update_cache (key : string) (v : value) : M unit :=
  c <- cache ;;
  modify (set_cache (Some (dict_pop key c))) ;;;
  wb <- (λ s, (Ok (writeback (self s)), s)) ;;
  if wb && is_dict_or_list v then
    c <- cache ;; modify (set_cache (Some (dict_set key v c)))
  else ret tt.

Definition loads (jstr : string) : M value := λ s,
  match json_loads jstr (objects (env s)) with
  | Raise e => (Raise e, s)
  | Ok (v, h) => (Ok v, set_objects h s)
  end.

Definition dumps (v : value) : M string := λ s,
  (json_dumps (objects (env s)) v, s).

Definition __getitem__ (key : value) : M value :=
  match key with
  | VStr k =>
      c <- cache ;;
      match dict_get k c with
      | Some v => ret v
      | None =>
          cn <- conn ;;
          row <- execute_GET cn k ;;
          match row with
          | None => raise (KeyError k)
          | Some jstr =>
              v <- loads jstr ;;
              _update_cache k v ;;;
              ret v
          end
      end
  | _ => raise TypeError_key
  end.

Definition __setitem__ (key : value) (v : value) : M unit :=
  match key with
  | VStr k =>
      jstr <- dumps v ;;
      with_conn (cn <- conn ;; execute_SET cn k jstr) ;;;
      _update_cache k v
  | _ => raise TypeError_key
  end.

(** [self.cache.pop(key, None)] for a key of any type: a [str] is
    looked up, any other hashable object equals no key of the cache, a
    list or a dict is unhashable. *)
Definition cache_pop (key : value) (c : pydict) : result pydict :=
  match key with
  | VStr k => Ok (dict_pop k c)
  | VRef _ => Raise TypeError_unhashable
  | _ => Ok c
  end.

Definition __delitem__ (key : value) : M unit :=
  with_conn (cn <- conn ;; execute_DEL cn key) ;;;
  c <- cache ;;
  c' <- lift (cache_pop key c) ;;
  modify (set_cache (Some c')).

(** [Mapping.__contains__], inherited from [collections]:
    [try: self[key]  except KeyError: return False  else: return True]. *)
Definition __contains__ (key : value) : M bool := λ s,
  match __getitem__ key s with
  | (Ok _, s') => (Ok true, s')
  | (Raise (KeyError _), s') => (Ok false, s')
  | (Raise e, s') => (Raise e, s')
  end.

(** The body of the loop of [sync]. *)
Definition sync_body (kv : string * value) : M unit :=
  jstr <- dumps kv.2 ;;
  cn <- conn ;;
  execute_SET cn kv.1 jstr.

Definition sync : M unit :=
  c <- cache ;;
  match c with
  | [] => ret tt
  | _ => with_conn (c <- cache ;; for_each c sync_body)
  end.

Definition close : M unit :=
  try_finally
    (try_except_closed (sync ;;; c <- conn ;; conn_close c))
    (modify (set_conn None) ;;; modify (set_cache None)).

End cupboard_methods.

(** *** The caller *)

(** The caller mutates, or creates, the list or dict at [l]. *)
Definition mutate (l : loc) (o : obj) : M unit :=
  modify (λ s, set_objects (<[l := o]> (objects (env s))) s).

(** ** Supported values

    [denotes h t v]: in heap [h] the value [v] is the supported value
    with shape [t], that is a null, boolean, integer, float or text, or
    a list of supported values, or a dict from distinct text keys to
    supported values.  Two values are structurally equal when they
    denote the same tree. *)
Fixpoint denotes (h : heap) (t : jtree) (v : value) {struct t} : Prop :=
  match t with
  | JNull => v = VNone
  | JBool b => v = VBool b
  | JInt z => v = VInt z
  | JFloat f => v = VFloat f
  | JStr s => v = VStr s
  | JList ts =>
      ∃ l items, v = VRef l ∧ h !! l = Some (OList items) ∧
        (fix all2 (ts : list jtree) (vs : list value) : Prop :=
           match ts, vs with
           | [], [] => True
           | t :: ts', v :: vs' => denotes h t v ∧ all2 ts' vs'
           | _, _ => False
           end) ts items
  | JDict kts =>
      ∃ l items, v = VRef l ∧ h !! l = Some (ODict items) ∧
        NoDup kts.*1 ∧
        (fix all2 (kts : list (string * jtree)) (kvs : list (value * value))
           : Prop :=
           match kts, kvs with
           | [], [] => True
           | kt :: kts', kv :: kvs' =>
               (kv.1 = VStr kt.1 ∧ denotes h kt.2 kv.2) ∧ all2 kts' kvs'
           | _, _ => False
           end) kts items
  end.

(** Every dict of the tree has distinct keys. *)
Fixpoint distinct_keys (t : jtree) : Prop :=
  match t with
  | JList ts =>
      (fix all (ts : list jtree) : Prop :=
         match ts with
         | [] => True
         | t :: ts' => distinct_keys t ∧ all ts'
         end) ts
  | JDict kts =>
      NoDup kts.*1 ∧
      (fix all (kts : list (string * jtree)) : Prop :=
         match kts with
         | [] => True
         | kt :: kts' => distinct_keys kt.2 ∧ all kts'
         end) kts
  | _ => True
  end.

(** ** Reachable states *)

Inductive call :=
| CGet (key : value)
| CSet (key v : value)
| CDel (key : value)
| CContains (key : value)
| CLen
| CIter
| CSync
| CClose
| CMutate (l : loc) (o : obj).

Definition void {A} (m : M A) : M unit := λ s,
  match m s with
  | (Ok _, s') => (Ok tt, s')
  | (Raise e, s') => (Raise e, s')
  end.

Section reach.
Context `{Collaborators}.

Definition run_call (c : call) : M unit :=
  match c with
  | CGet key => void (__getitem__ key)
  | CSet key v => __setitem__ key v
  | CDel key => __delitem__ key
  | CContains key => void (__contains__ key)
  | CLen => void __len__
  | CIter => void __iter__
  | CSync => sync
  | CClose => close
  | CMutate l o => mutate l o
  end.

(** The states a program can bring a store to: it opens the store over
    some backing file and then calls methods, and mutates objects, in
    any order, going on after an exception. *)
Inductive reachable : state → Prop :=
| reachable_open flag wb w s :
    open flag wb w = Ok s → reachable s
| reachable_call s c :
    reachable s → reachable (run_call c s).2.

(** [key] has an entry in the cache. *)
Definition cached (key : value) (s : state) : Prop :=
  match key, _cache (self s) with
  | VStr k, Some c => is_Some (dict_get k c)
  | _, _ => False
  end.

Definition is_open (s : state) : Prop :=
  is_Some (_cache (self s)) ∧ is_Some (_conn (self s)).

Definition is_closed (s : state) : Prop :=
  _cache (self s) = None ∧ _conn (self s) = None.

End reach.

(** ** The vocabulary of the properties *)

(** A text key is present when it has a row or an entry in the
    cache. *)
Definition present (k : string) (s : state) : Prop :=
  is_Some (rows (env s) !! k) ∨ cached (VStr k) s.

(** The cache after [_update_cache key v]. *)
Definition updated (wb : bool) (key : string) (v : value) (c : pydict)
  : pydict :=
  if wb && is_dict_or_list v then dict_set key v (dict_pop key c)
  else dict_pop key c.

(** The state [close] leaves when [sync] has brought the store to
    [s]: the connection released, both references cleared. *)
Definition closed_after (cn : connection) (s : state) : state :=
  set_cache None (set_conn None (set_released (cn :: released (env s)) s)).

(** The rows [sync] leaves when it returns: each entry of the cache
    upserted in turn. *)
Fixpoint sync_rows `{Collaborators} (h : heap) (c : pydict)
    (r : gmap string string) : result (gmap string string) :=
  match c with
  | [] => Ok r
  | (k, v) :: c' =>
      match json_dumps h v with
      | Ok jstr => sync_rows h c' (<[k := jstr]> r)
      | Raise e => Raise e
      end
  end.

(** What the decoder builds is the tree it was given, in a larger
    heap. *)
Definition alloc_ok (t : jtree) : Prop :=
  ∀ h, h ⊆ (alloc t h).2 ∧ denotes (alloc t h).2 t (alloc t h).1.

(** The items an encoder visits inside an object. *)
Definition children (o : obj) : list value :=
  match o with
  | OList items => items
  | ODict items => items.*2
  end.

(** No object refers to a location that is not in the heap. *)
Definition heap_closed (h : heap) : Prop :=
  ∀ l o l', h !! l = Some o → VRef l' ∈ children o → is_Some (h !! l').

(** *** The invariant of the cache *)

Definition cache_ok (wb : bool) (c : pydict) : Prop :=
  NoDup c.*1 ∧
  Forall (λ kv, is_dict_or_list kv.2 = true) c ∧
  (wb = false → c = []).

(** Both references are set or both are cleared, and the cache is a
    dict of lists and dicts, empty unless write-back is on. *)
Definition cache_inv (s : state) : Prop :=
  (is_Some (_cache (self s)) ↔ is_Some (_conn (self s))) ∧
  ∀ c, _cache (self s) = Some c → cache_ok (writeback (self s)) c.

(** *** Programs on text keys *)

(** The operations of a program that uses text keys; the caller may
    mutate objects in between. *)
Inductive op :=
| OpSet (k : string) (v : value)
| OpDelete (k : string)
| OpGet (k : string)
| OpSync
| OpMutate (l : loc) (o : obj).

Definition op_call (o : op) : call :=
  match o with
  | OpSet k v => CSet (VStr k) v
  | OpDelete k => CDel (VStr k)
  | OpGet k => CGet (VStr k)
  | OpSync => CSync
  | OpMutate l o => CMutate l o
  end.

(** Runs the operations in turn, going on after an exception, and
    records how each ended. *)
Fixpoint run_ops `{Collaborators} (ops : list op) (s : state)
  : list (op * result unit) * state :=
  match ops with
  | [] => ([], s)
  | o :: ops' =>
      let '(r, s1) := run_call (op_call o) s in
      let '(tr, s2) := run_ops ops' s1 in
      ((o, r) :: tr, s2)
  end.

(** The keys set and not deleted since: a [set] that returned adds its
    key, a [delete] that returned removes it. *)
Definition live_step (K : gset string) (e : op * result unit) : gset string :=
  match e with
  | (OpSet k _, Ok _) => {[k]} ∪ K
  | (OpDelete k, Ok _) => K ∖ {[k]}
  | _ => K
  end.

Definition live_keys (tr : list (op * result unit)) : gset string :=
  foldl live_step ∅ tr.

(** The store is open, every key of the cache has a row, and the keys
    of the rows are [K]. *)
Definition backed (K : gset string) (s : state) : Prop :=
  ∃ c cn, _cache (self s) = Some c ∧ _conn (self s) = Some cn ∧
          dom (rows (env s)) = K ∧
          ∀ k, k ∈ c.*1 → k ∈ K.

(** The caller mutates objects, one after the other. *)
Definition mutations (muts : list (loc * obj)) (s : state) : state :=
  foldl (λ s m, (mutate m.1 m.2 s).2) s muts.

Fixpoint run_calls `{Collaborators} (cs : list call) (s : state) : state :=
  match cs with
  | [] => s
  | c :: cs' => run_calls cs' (run_call c s).2
  end.

(** *** Two sentences of the specification, as it states them *)

(** C3 as the specification states it: on a closed store every call of
    the five methods raises [CupboardClosedError]. *)
Definition closed_store_always_ClosedError `{Collaborators} : Prop :=
  ∀ (s : state) (key v : value), is_closed s →
    (__getitem__ key s).1 = Raise CupboardClosedError ∧
    (__setitem__ key v s).1 = Raise CupboardClosedError ∧
    (__delitem__ key s).1 = Raise CupboardClosedError ∧
    (__iter__ s).1 = Raise CupboardClosedError ∧
    (__len__ s).1 = Raise CupboardClosedError.

(** C10 as the specification states it: after a [close] whose [sync]
    raised, every later call of the five methods raises
    [CupboardClosedError]. *)
Definition failed_close_always_ClosedError `{Collaborators} : Prop :=
  ∀ (s s' : state) (e : exn) (key v : value),
    is_open s → sync s = (Raise e, s') →
    let s1 := (close s).2 in
    (close s).1 = Raise e ∧
    released (env s1) = released (env s) ∧
    close s1 = (Ok tt, s1) ∧
    (__getitem__ key s1).1 = Raise CupboardClosedError ∧
    (__setitem__ key v s1).1 = Raise CupboardClosedError ∧
    (__delitem__ key s1).1 = Raise CupboardClosedError ∧
    (__iter__ s1).1 = Raise CupboardClosedError ∧
    (__len__ s1).1 = Raise CupboardClosedError.

(** ** A reference codec

    A small json printer and parser, used to run the store on concrete
    values.  Text is escaped with a backslash before a quote or a
    backslash; a float is printed as [f] followed by its bit pattern. *)
Module RefCodec.

Definition dquote : ascii := "034"%char.
Definition backslash : ascii := "092"%char.

Fixpoint escape (s : string) : string :=
  match s with
  | EmptyString => EmptyString
  | String a s' =>
      if bool_decide (a = dquote ∨ a = backslash)
      then String backslash (String a (escape s'))
      else String a (escape s')
  end.

Definition quote (s : string) : string :=
  String dquote (escape s +:+ String dquote EmptyString).

Definition join (sep : string) (l : list string) : string :=
  match l with
  | [] => EmptyString
  | x :: l' => foldl (λ acc y, acc +:+ sep +:+ y) x l'
  end.

Fixpoint render_tree (t : jtree) : string :=
  match t with
  | JNull => "null"
  | JBool true => "true"
  | JBool false => "false"
  | JInt z => pretty z
  | JFloat f => "f" +:+ pretty f
  | JStr s => quote s
  | JList ts => "[" +:+ join ", " (render_tree <$> ts) +:+ "]"
  | JDict kts =>
      "{" +:+ join ", " ((λ kt : string * jtree,
                            quote kt.1 +:+ ": " +:+ render_tree kt.2) <$> kts)
          +:+ "}"
  end.

Definition digit (a : ascii) : option N :=
  let n := N_of_ascii a in
  if bool_decide (48 ≤ n ≤ 57)%N then Some (n - 48)%N else None.

(** Reads a run of decimal digits. *)
Fixpoint digits (acc : option N) (cs : list ascii) : option N * list ascii :=
  match cs with
  | a :: cs' =>
      match digit a with
      | Some d => digits (Some (10 * default 0 acc + d)%N) cs'
      | None => (acc, cs)
      end
  | [] => (acc, cs)
  end.

(** Reads text up to the closing quote. *)
Fixpoint text (cs : list ascii) : option (string * list ascii) :=
  match cs with
  | [] => None
  | a :: cs' =>
      if bool_decide (a = dquote) then Some (EmptyString, cs')
      else if bool_decide (a = backslash) then
        match cs' with
        | b :: cs'' =>
            match text cs'' with
            | Some (s, rest) => Some (String b s, rest)
            | None => None
            end
        | [] => None
        end
      else
        match text cs' with
        | Some (s, rest) => Some (String a s, rest)
        | None => None
        end
  end.

Fixpoint parse_value (fuel : nat) (cs : list ascii)
  : option (jtree * list ascii) :=
  match fuel with
  | O => None
  | S fuel' =>
      match cs with
      | "n" :: "u" :: "l" :: "l" :: rest => Some (JNull, rest)
      | "t" :: "r" :: "u" :: "e" :: rest => Some (JBool true, rest)
      | "f" :: "a" :: "l" :: "s" :: "e" :: rest => Some (JBool false, rest)
      | "f" :: rest =>
          match digits None rest with
          | (Some n, rest') => Some (JFloat n, rest')
          | _ => None
          end
      | "-" :: rest =>
          match digits None rest with
          | (Some n, rest') => Some (JInt (- Z.of_N n), rest')
          | _ => None
          end
      | "034" :: rest =>
          match text rest with
          | Some (s, rest') => Some (JStr s, rest')
          | None => None
          end
      | "[" :: "]" :: rest => Some (JList [], rest)
      | "[" :: rest =>
          match parse_elements fuel' rest with
          | Some (ts, rest') => Some (JList ts, rest')
          | None => None
          end
      | "{" :: "}" :: rest => Some (JDict [], rest)
      | "{" :: rest =>
          match parse_members fuel' rest with
          | Some (kts, rest') => Some (JDict kts, rest')
          | None => None
          end
      | _ =>
          match digits None cs with
          | (Some n, rest') => Some (JInt (Z.of_N n), rest')
          | _ => None
          end
      end%char
  end
with parse_elements (fuel : nat) (cs : list ascii)
  : option (list jtree * list ascii) :=
  match fuel with
  | O => None
  | S fuel' =>
      match parse_value fuel' cs with
      | Some (t, "," :: " " :: rest) =>
          match parse_elements fuel' rest with
          | Some (ts, rest') => Some (t :: ts, rest')
          | None => None
          end
      | Some (t, "]" :: rest) => Some ([t], rest)
      | _ => None
      end%char
  end
with parse_members (fuel : nat) (cs : list ascii)
  : option (list (string * jtree) * list ascii) :=
  match fuel with
  | O => None
  | S fuel' =>
      match cs with
      | "034" :: cs' =>
          match text cs' with
          | Some (k, ":" :: " " :: cs'') =>
              match parse_value fuel' cs'' with
              | Some (t, "," :: " " :: rest) =>
                  match parse_members fuel' rest with
                  | Some (kts, rest') => Some ((k, t) :: kts, rest')
                  | None => None
                  end
              | Some (t, "}" :: rest) => Some ([(k, t)], rest)
              | _ => None
              end
          | _ => None
          end
      | _ => None
      end%char
  end.

Definition parse_text (s : string) : option jtree :=
  match parse_value (S (String.length s)) (String.list_ascii_of_string s) with
  | Some (t, []) => Some t
  | _ => None
  end.

(** sqlite prints a REAL with [%!.15g]; the reference takes the same
    text as for json. *)
Definition float_text (f : float64) : string := "f" +:+ pretty f.

#[export] Instance collaborators : Collaborators := {|
  render := render_tree;
  parse := parse_text;
  float_repr := float_text;
  real_text := float_text;
|}.

End RefCodec.

(** ** Concrete stores *)

Section stores.
Import RefCodec.

Definition empty_world : world :=
  {| objects := ∅; rows := ∅; opened := 0%nat; released := [] |}.

(** A store just opened on an empty file. *)
Definition fresh_store (wb : bool) : state :=
  {| self := {| writeback := wb; _cache := Some []; _conn := Some 0%nat |};
     env := {| objects := ∅; rows := ∅; opened := 1%nat; released := [] |} |}.

(** A write-back store holding, under ["x"], a list that the caller
    has since made unserialisable. *)
Definition broken_store : state :=
  {| self := {| writeback := true;
                _cache := Some [("x"%string, VRef 1%positive)];
                _conn := Some 0%nat |};
     env := {| objects := {[ 1%positive := OList [VOther 0%nat] ]};
               rows := {[ "x"%string := "[]"%string ]};
               opened := 1%nat; released := [] |} |}.

(** A write-back store holding, under ["bar"], a list that the caller
    has extended since it was stored. *)
Definition pending_store : state :=
  run_calls [CMutate 1%positive (OList [VStr "a"]);
             CSet (VStr "bar") (VRef 1%positive);
             CMutate 1%positive (OList [VStr "a"; VInt 42])]
    (fresh_store true).

(** The scenario of the specification and more: three keys set, a read,
    a [sync], one key deleted, a [set] that fails and a [delete] of an
    absent key, the caller mutating a stored list in between. *)
Definition scenario : list op :=
  [OpMutate 1%positive (OList [VStr "a"; VStr "b"; VInt 42]);
   OpSet "foo" (VInt 123); OpSet "bar" (VRef 1%positive);
   OpGet "foo"; OpSet "baz" (VInt 126);
   OpMutate 1%positive (OList [VStr "a"]); OpSync;
   OpDelete "foo"; OpSet "qux" (VOther 0%nat); OpDelete "nope"].

(** A store, in either mode, and a list of the caller's. *)
Definition list_store (wb : bool) : state :=
  run_calls [CMutate 1%positive (OList [VStr "a"; VStr "b"; VInt 42])]
    (fresh_store wb).

Definition list_shape : jtree := JList [JStr "a"; JStr "b"; JInt 42].

(** [set] then [get] of the list under ["bar"], in the store with
    write-back [wb]. *)
Definition roundtrip_at (wb : bool) : Prop :=
  ∃ s1 s2 v',
    __setitem__ (VStr "bar") (VRef 1%positive) (list_store wb) = (Ok tt, s1) ∧
    __getitem__ (VStr "bar") s1 = (Ok v', s2) ∧
    denotes (objects (env s2)) list_shape v' ∧
    denotes (objects (env s2)) list_shape (VRef 1%positive).

(** The write-back scenario of the specification: a dict stored under
    ["x"], read back and changed in place. *)
Definition dict_store : state :=
  run_calls [CMutate 1%positive (ODict [(VStr "a", VInt 1)]);
             CSet (VStr "x") (VRef 1%positive)] (fresh_store true).

Definition dict_mutation : list (loc * obj) :=
  [(1%positive, ODict [(VStr "a", VInt 2)])].

Definition dict_shape : jtree := JDict [("a"%string, JInt 2)].

(** The mutated dict is found by a store opened after [sync]
    ([closing] off) or [close] ([closing] on). *)
Definition persists_at (closing wb' : bool) : Prop :=
  ∃ s3 s4 s5 v',
    (if closing then close else sync) (mutations dict_mutation dict_store)
      = (Ok tt, s3) ∧
    open "c" wb' (env s3) = Ok s4 ∧
    __getitem__ (VStr "x") s4 = (Ok v', s5) ∧
    denotes (objects (env s5)) dict_shape v'.

End stores.

(** ** The rest of the class *)

Section cupboard_lifecycle.
Context `{Collaborators}.

(** [__enter__] returns the store itself. *)
Definition __enter__ : M unit := ret tt.

(** [__exit__(type, value, traceback)] closes and returns [None], so
    that an exception of the block is not suppressed. *)
Definition __exit__ : M unit := close.

(** [with store: body]: [__exit__] runs whether [body] returns or
    raises; what it raises replaces the outcome of [body]. *)
Definition with_store {A} (body : M A) : M A :=
  __enter__ ;;; try_finally body __exit__.

(** [__del__]: closes when the slot [_conn] holds a connection. *)
Definition __del__ : M unit := λ s,
  match _conn (self s) with
  | Some _ => close s
  | None => (Ok tt, s)
  end.

End cupboard_lifecycle.

(** *** Connections *)

(** The log of releases of a file names each connection at most once,
    and only connections that were opened. *)
Definition world_ok (w : world) : Prop :=
  NoDup (released w) ∧ ∀ cn, cn ∈ released w → (cn < opened w)%nat.

(** The connection a store holds has been opened and not released. *)
Definition conn_live (s : state) : Prop :=
  world_ok (env s) ∧
  ∀ cn, _conn (self s) = Some cn →
        (cn < opened (env s))%nat ∧ cn ∉ released (env s).

(** * Properties *)

(** ** Json trees *)

(** Induction over trees that reaches inside lists and dicts. *)
Lemma jtree_ind' (P : jtree → Prop) :
  P JNull → (∀ b, P (JBool b)) → (∀ z, P (JInt z)) →
  (∀ f, P (JFloat f)) → (∀ s, P (JStr s)) →
  (∀ ts, Forall P ts → P (JList ts)) →
  (∀ kts, Forall (λ kt, P kt.2) kts → P (JDict kts)) →
  ∀ t, P t.
Proof.
  intros Hn Hb Hi Hf Hs Hl Hd.
  fix IH 1. intros [|b|z|f|s|ts|kts].
  - exact Hn.
  - exact (Hb b).
  - exact (Hi z).
  - exact (Hf f).
  - exact (Hs s).
  - apply Hl. induction ts as [|t ts IHts]; constructor; [apply IH | exact IHts].
  - apply Hd. induction kts as [|[k t] kts IHkts]; constructor;
      [apply IH | exact IHkts].
Qed.

(** ** Python dicts *)

Lemma dict_get_pop_eq k d : dict_get k (dict_pop k d) = None.
Proof.
  induction d as [|[k' v] d IH]; [done|].
  unfold dict_pop in *. rewrite filter_cons. simpl.
  destruct (decide (k' ≠ k)) as [Hne|Heq]; [|done].
  simpl. destruct (decide (k = k')); [congruence|done].
Qed.

Lemma dict_get_pop_ne k k' d :
  k ≠ k' → dict_get k (dict_pop k' d) = dict_get k d.
Proof.
  intros Hne. induction d as [|[k0 v] d IH]; [done|].
  unfold dict_pop in *. rewrite filter_cons. simpl.
  destruct (decide (k0 ≠ k')) as [Hne0|Heq]; simpl.
  - by rewrite IH.
  - apply dec_stable in Heq. subst k0.
    destruct (decide (k = k')); [done|]. apply IH.
Qed.

Lemma dict_get_set_eq k v d : dict_get k (dict_set k v d) = Some v.
Proof.
  induction d as [|[k' v'] d IH]; simpl.
  - by rewrite decide_True.
  - destruct (decide (k = k')) as [->|Hne]; simpl.
    + by rewrite decide_True.
    + by rewrite decide_False.
Qed.

Lemma dict_get_set_ne k k' v d :
  k ≠ k' → dict_get k (dict_set k' v d) = dict_get k d.
Proof.
  intros Hne. induction d as [|[k0 v0] d IH]; simpl.
  - by rewrite decide_False.
  - destruct (decide (k' = k0)) as [->|Hne0]; simpl.
    + by rewrite !decide_False.
    + destruct (decide (k = k0)); [done|apply IH].
Qed.

Lemma dict_get_None k d : dict_get k d = None ↔ k ∉ d.*1.
Proof.
  induction d as [|[k' v] d IH]; simpl.
  - split; [intros _; apply not_elem_of_nil|done].
  - rewrite not_elem_of_cons. destruct (decide (k = k')); [|tauto].
    split; [done|tauto].
Qed.

Lemma dict_get_Some_elem k v d : dict_get k d = Some v → (k, v) ∈ d.
Proof.
  induction d as [|[k' v'] d IH]; simpl; [done|].
  destruct (decide (k = k')) as [->|].
  - intros Heq. injection Heq as ->. left.
  - intros. right. auto.
Qed.

Lemma dict_pop_keys k k' d : k ∈ (dict_pop k' d).*1 ↔ k ≠ k' ∧ k ∈ d.*1.
Proof.
  unfold dict_pop. rewrite !list_elem_of_fmap. split.
  - intros [[k0 v] [Hk Hin]]. apply list_elem_of_filter in Hin as [Hne Hin].
    simpl in *. subst k. split; [done|]. by exists (k0, v).
  - intros [Hne [[k0 v] [-> Hin]]]. exists (k0, v). split; [done|].
    apply list_elem_of_filter. done.
Qed.

Lemma dict_set_keys k k' v d :
  k ∈ (dict_set k' v d).*1 ↔ k = k' ∨ k ∈ d.*1.
Proof.
  induction d as [|[k0 v0] d IH]; simpl.
  - rewrite list_elem_of_singleton, elem_of_nil. tauto.
  - destruct (decide (k' = k0)) as [->|Hne]; simpl.
    + rewrite !elem_of_cons. tauto.
    + rewrite !elem_of_cons, IH. tauto.
Qed.

Lemma dict_pop_NoDup k d : NoDup d.*1 → NoDup (dict_pop k d).*1.
Proof.
  unfold dict_pop. induction d as [|[k' v] d IH]; [done|].
  rewrite filter_cons. simpl. intros [Hnin Hnd]%NoDup_cons.
  destruct (decide (k' ≠ k)); simpl; [|auto].
  apply NoDup_cons. split; [|auto].
  intros Hin. apply Hnin.
  apply (dict_pop_keys k' k d) in Hin. tauto.
Qed.

Lemma dict_set_NoDup k v d : NoDup d.*1 → NoDup (dict_set k v d).*1.
Proof.
  induction d as [|[k' v'] d IH]; simpl.
  - intros _. apply NoDup_singleton.
  - intros [Hnin Hnd]%NoDup_cons.
    destruct (decide (k = k')) as [->|Hne]; simpl.
    + by apply NoDup_cons.
    + apply NoDup_cons. split; [|auto].
      rewrite dict_set_keys. intros [?|?]; [congruence|done].
Qed.

Lemma dict_set_fresh k v d : k ∉ d.*1 → dict_set k v d = d ++ [(k, v)].
Proof.
  induction d as [|[k' v'] d IH]; simpl; [done|].
  rewrite not_elem_of_cons. intros [Hne Hnin].
  rewrite decide_False by done. by rewrite IH.
Qed.

Lemma dict_pop_Forall (P : string * value → Prop) k d :
  Forall P d → Forall P (dict_pop k d).
Proof.
  unfold dict_pop. induction 1 as [|kv d Hx Hd IH]; [constructor|].
  rewrite filter_cons. destruct (decide (kv.1 ≠ k)); [by constructor|done].
Qed.

Lemma dict_set_Forall (P : string * value → Prop) k v d :
  P (k, v) → Forall P d → Forall P (dict_set k v d).
Proof.
  intros Hkv. induction 1 as [|[k' v'] d Hx Hd IH]; simpl.
  - by constructor.
  - destruct (decide (k = k')); constructor; auto.
Qed.

(** ** Supported values and the codec *)

Lemma denotes_list h ts v :
  denotes h (JList ts) v ↔
  ∃ l items, v = VRef l ∧ h !! l = Some (OList items) ∧
    Forall2 (denotes h) ts items.
Proof.
  simpl.
  split; intros (l & items & Hv & Hl & HF); exists l, items;
    (split_and!; [done..|]); clear Hl; revert items HF.
  - induction ts as [|t ts IH]; intros [|v' vs] HF; try done.
    destruct HF. constructor; auto.
  - induction ts as [|t ts IH]; intros [|v' vs] HF; inversion HF; subst;
      try done.
    split; [done|by apply IH].
Qed.

Lemma denotes_dict h kts v :
  denotes h (JDict kts) v ↔
  ∃ l items, v = VRef l ∧ h !! l = Some (ODict items) ∧ NoDup kts.*1 ∧
    Forall2 (λ kt kv, kv.1 = VStr kt.1 ∧ denotes h kt.2 kv.2) kts items.
Proof.
  simpl.
  split; intros (l & items & Hv & Hl & Hnd & HF); exists l, items;
    (split_and!; [done..|]); clear Hl Hnd; revert items HF.
  - induction kts as [|kt kts IH]; intros [|kv kvs] HF; try done.
    destruct HF. constructor; auto.
  - induction kts as [|kt kts IH]; intros [|kv kvs] HF; inversion HF; subst;
      try done.
    split; [done|by apply IH].
Qed.

Lemma distinct_keys_list ts :
  distinct_keys (JList ts) ↔ Forall distinct_keys ts.
Proof.
  simpl. induction ts as [|t ts IH].
  - split; [constructor|done].
  - rewrite IH, Forall_cons. done.
Qed.

Lemma distinct_keys_dict kts :
  distinct_keys (JDict kts) ↔
  NoDup kts.*1 ∧ Forall (λ kt, distinct_keys kt.2) kts.
Proof.
  simpl. apply and_iff_compat_l. induction kts as [|kt kts IH].
  - split; [constructor|done].
  - rewrite IH, Forall_cons. done.
Qed.

Ltac inv_denotes H :=
  first
    [ apply denotes_list in H as (? & ? & ? & ? & ?)
    | apply denotes_dict in H as (? & ? & ? & ? & ? & ?) ].

Lemma denotes_scalar h t v :
  match t with JList _ | JDict _ => False | _ => True end →
  denotes h t v ↔
  v = match t with
      | JNull => VNone | JBool b => VBool b | JInt z => VInt z
      | JFloat f => VFloat f | JStr s => VStr s | _ => VNone
      end.
Proof. destruct t; simpl; tauto. Qed.

Lemma denotes_distinct_keys h t v : denotes h t v → distinct_keys t.
Proof.
  revert v. induction t as [| | | | |ts IH|kts IH] using jtree_ind';
    intros v Hd; try done.
  - apply distinct_keys_list. inv_denotes Hd.
    rename select (Forall2 _ _ _) into HF.
    clear -IH HF. induction HF; inversion IH; subst; constructor; eauto.
  - apply distinct_keys_dict. inv_denotes Hd. split; [done|].
    rename select (Forall2 _ _ _) into HF.
    clear -IH HF. induction HF as [|?????? IHF]; inversion IH; subst;
      constructor; intuition eauto.
Qed.

(** A value keeps its shape when the heap grows. *)
Lemma denotes_mono h h' t v : h ⊆ h' → denotes h t v → denotes h' t v.
Proof.
  intros Hsub. revert v.
  induction t as [| | | | |ts IH|kts IH] using jtree_ind'; intros v Hd;
    try done.
  - inv_denotes Hd. apply denotes_list. eexists _, _.
    split_and!; [done|by eapply lookup_weaken|].
    rename select (Forall2 _ _ _) into HF.
    clear -IH HF. induction HF; inversion IH; subst; constructor; eauto.
  - inv_denotes Hd. apply denotes_dict. eexists _, _.
    split_and!; [done|by eapply lookup_weaken|done|].
    rename select (Forall2 _ _ _) into HF.
    clear -IH HF. induction HF; inversion IH; subst; constructor;
      intuition eauto.
Qed.

(** A value has one shape. *)
Lemma denotes_functional h t t' v :
  denotes h t v → denotes h t' v → t = t'.
Proof.
  revert t' v.
  induction t as [| | | | |ts IH|kts IH] using jtree_ind'; intros t' v Hd Hd'.
  1-5: destruct t'; try (by simpl in *; congruence);
       inv_denotes Hd'; simpl in *; congruence.
  - inv_denotes Hd. subst v.
    destruct t'; try (by simpl in Hd'); inv_denotes Hd'; simplify_eq.
    f_equal.
    rename select (Forall2 _ ts _) into HF.
    rename select (Forall2 _ ts0 _) into HF'.
    clear -IH HF HF'. revert ts0 HF'.
    induction HF; intros ts0 HF'; inversion HF'; inversion IH; subst;
      f_equal; eauto.
  - inv_denotes Hd. subst v.
    destruct t'; try (by simpl in Hd'); inv_denotes Hd'; simplify_eq.
    f_equal.
    rename select (Forall2 _ kts _) into HF.
    rename select (Forall2 _ kts0 _) into HF'.
    clear -IH HF HF'. revert kts0 HF'.
    induction HF as [|[k t] kv kts kvs [Hk Ht] HF IHF]; intros kts0 HF';
      inversion HF' as [|[k' t'] ??? [Hk' Ht']]; inversion IH; subst;
      f_equal; eauto.
    simpl in *. f_equal; [congruence|eauto].
Qed.

Lemma jdepth_list_elem t ts : t ∈ ts → (jdepth t < jdepth (JList ts))%nat.
Proof.
  simpl. induction 1 as [t ts|t t' ts Hin IH]; simpl; lia.
Qed.

Lemma jdepth_dict_elem kt kts :
  kt ∈ kts → (jdepth kt.2 < jdepth (JDict kts))%nat.
Proof.
  simpl. induction 1 as [kt kts|kt kt' kts Hin IH]; simpl; lia.
Qed.

Lemma result_mapM_Forall2 {A B} (f : A → result B) (l : list A) (l' : list B) :
  Forall2 (λ y x, f x = Ok y) l' l → result_mapM f l = Ok l'.
Proof.
  induction 1 as [|y x l' l Hxy HF IH]; simpl; [done|].
  by rewrite Hxy, IH.
Qed.

Lemma Forall2_elem_impl {A B} (R Q : A → B → Prop) l l' :
  Forall2 R l l' → (∀ x y, x ∈ l → R x y → Q x y) → Forall2 Q l l'.
Proof.
  induction 1 as [|x y l l' Hxy HF IH]; intros HRQ; constructor.
  - apply HRQ; [left|done].
  - apply IH. intros x' y' Hin. apply HRQ. by right.
Qed.

Section codec_facts.
Context `{Collaborators}.

(** On a supported value the encoder neither meets a cycle nor runs out
    of fuel, and yields the shape of the value. *)
Lemma to_json_denotes h t v fuel markers :
  denotes h t v →
  markers ⊆ dom h →
  (size (dom h) < fuel + size markers)%nat →
  (∀ l, l ∈ markers →
     ∃ t', denotes h t' (VRef l) ∧ (jdepth t < jdepth t')%nat) →
  to_json fuel markers h v = Ok t.
Proof.
  revert v fuel markers.
  induction t as [| | | | |ts IH|kts IH] using jtree_ind';
    intros v fuel markers Hd Hsub Hfuel Hmark.
  1-5: simpl in Hd; subst v; by destruct fuel.
  - pose proof Hd as Hd0. inv_denotes Hd. subst v.
    rename select (h !! _ = _) into Hl. rename select (Forall2 _ _ _) into HF.
    rename x into l. rename x0 into items.
    assert (l ∉ markers) as Hnin.
    { intros (t' & Ht' & Hlt)%Hmark.
      rewrite (denotes_functional _ _ _ _ Hd0 Ht') in Hlt. lia. }
    assert (l ∈ dom h) as Hdom by (apply elem_of_dom; eauto).
    assert (size ({[l]} ∪ markers) = S (size markers)) as Hsize.
    { rewrite size_union by set_solver. by rewrite size_singleton. }
    assert ({[l]} ∪ markers ⊆ dom h) as Hsub' by set_solver.
    pose proof (subseteq_size _ _ Hsub') as Hle.
    destruct fuel as [|fuel]; [lia|].
    simpl. rewrite decide_False by done. rewrite Hl.
    erewrite result_mapM_Forall2; [done|].
    rewrite Forall_forall in IH.
    eapply Forall2_elem_impl; [exact HF|].
    intros t v Hin Htv. apply IH; [done..|lia|].
    intros l' [->%elem_of_singleton|Hin']%elem_of_union.
    + exists (JList ts). split; [done|]. by apply jdepth_list_elem.
    + destruct (Hmark l' Hin') as (t' & Ht' & Hlt).
      exists t'. split; [done|].
      pose proof (jdepth_list_elem t ts Hin). lia.
  - pose proof Hd as Hd0. inv_denotes Hd. subst v.
    rename select (h !! _ = _) into Hl. rename select (Forall2 _ _ _) into HF.
    rename x into l. rename x0 into items.
    assert (l ∉ markers) as Hnin.
    { intros (t' & Ht' & Hlt)%Hmark.
      rewrite (denotes_functional _ _ _ _ Hd0 Ht') in Hlt. lia. }
    assert (l ∈ dom h) as Hdom by (apply elem_of_dom; eauto).
    assert (size ({[l]} ∪ markers) = S (size markers)) as Hsize.
    { rewrite size_union by set_solver. by rewrite size_singleton. }
    assert ({[l]} ∪ markers ⊆ dom h) as Hsub' by set_solver.
    pose proof (subseteq_size _ _ Hsub') as Hle.
    destruct fuel as [|fuel]; [lia|].
    simpl. rewrite decide_False by done. rewrite Hl.
    erewrite result_mapM_Forall2; [done|].
    rewrite Forall_forall in IH.
    eapply Forall2_elem_impl; [exact HF|].
    intros [k t] [kv v] Hin [Hk Htv]. simpl in *. subst kv. simpl.
    rewrite (IH (k, t) Hin v); [done..|lia|].
    intros l' [->%elem_of_singleton|Hin']%elem_of_union.
    + exists (JDict kts). split; [done|].
      by apply (jdepth_dict_elem (k, t)).
    + destruct (Hmark l' Hin') as (t' & Ht' & Hlt).
      exists t'. split; [done|].
      pose proof (jdepth_dict_elem (k, t) kts Hin). simpl in *. lia.
Qed.

Lemma json_dumps_denotes h t v :
  denotes h t v → json_dumps h v = Ok (render t).
Proof.
  intros Hd. unfold json_dumps, to_json_fuel.
  rewrite (to_json_denotes h t v); [done..| |].
  - rewrite size_empty. lia.
  - intros l Hin. by apply elem_of_empty in Hin.
Qed.

End codec_facts.

Lemma alloc_list_ok ts h :
  Forall alloc_ok ts →
  h ⊆ (alloc_list alloc ts h).2 ∧
  Forall2 (denotes (alloc_list alloc ts h).2) ts (alloc_list alloc ts h).1.
Proof.
  intros Hok. revert h. induction Hok as [|t ts Ht Hts IH]; intros h; simpl.
  - split; [done|constructor].
  - destruct (Ht h) as [Hsub Hd]. simpl in Hsub, Hd. revert Hsub Hd.
    destruct (alloc t h) as [v h1]. simpl. intros Hsub Hd.
    destruct (IH h1) as [Hsub1 HF]. revert Hsub1 HF.
    destruct (alloc_list alloc ts h1) as [vs h2]. simpl. intros Hsub1 HF.
    split; [by etrans|]. constructor; [|done].
    by eapply denotes_mono.
Qed.

Lemma alloc_items_ok kts d h :
  Forall (λ kt, alloc_ok kt.2) kts →
  NoDup kts.*1 →
  (∀ k, k ∈ kts.*1 → k ∉ d.*1) →
  h ⊆ (alloc_items alloc kts d h).2 ∧
  ∃ kvs, (alloc_items alloc kts d h).1 = d ++ kvs ∧
    Forall2 (λ kt kv, kv.1 = kt.1 ∧
               denotes (alloc_items alloc kts d h).2 kt.2 kv.2) kts kvs.
Proof.
  intros Hok. revert d h.
  induction Hok as [|[k t] kts Ht Hts IH]; intros d h Hnd Hfresh; simpl.
  - split; [done|]. exists []. rewrite app_nil_r. split; [done|constructor].
  - simpl in Hnd. apply NoDup_cons in Hnd as [Hk Hnd].
    destruct (Ht h) as [Hsub Hd]. simpl in Hsub, Hd. revert Hsub Hd.
    destruct (alloc t h) as [v h1]. simpl. intros Hsub Hd.
    rewrite dict_set_fresh by (apply Hfresh; left).
    destruct (IH (d ++ [(k, v)]) h1 Hnd) as [Hsub1 (kvs & Heq & HF)].
    { intros k' Hin. rewrite fmap_app, elem_of_app. simpl.
      rewrite list_elem_of_singleton. intros [Hin'| ->]; [|done].
      revert Hin'. apply Hfresh. by right. }
    revert Hsub1 Heq HF.
    destruct (alloc_items alloc kts (d ++ [(k, v)]) h1) as [d' h2]. simpl.
    intros Hsub1 Heq HF.
    split; [by etrans|].
    exists ((k, v) :: kvs). split.
    + rewrite Heq. by rewrite <- app_assoc.
    + constructor; [|done]. simpl. split; [done|]. by eapply denotes_mono.
Qed.

Lemma alloc_denotes t : distinct_keys t → alloc_ok t.
Proof.
  induction t as [| | | | |ts IH|kts IH] using jtree_ind'; intros Hdk h;
    try done.
  - apply distinct_keys_list in Hdk.
    assert (Forall alloc_ok ts) as Hok.
    { apply Forall_forall. intros t Hin.
      rewrite Forall_forall in IH, Hdk. auto. }
    destruct (alloc_list_ok ts h Hok) as [Hsub HF]. revert Hsub HF.
    simpl. destruct (alloc_list alloc ts h) as [vs h1]. simpl.
    intros Hsub HF.
    assert (h1 !! fresh (dom h1) = None) as Hfr.
    { apply not_elem_of_dom, is_fresh. }
    assert (h1 ⊆ <[fresh (dom h1) := OList vs]> h1) as Hsub1
      by (by apply insert_subseteq).
    split; [by etrans|].
    apply denotes_list. eexists _, _.
    split_and!; [done|apply lookup_insert_eq|].
    eapply Forall2_impl; [exact HF|].
    intros t v. by apply denotes_mono.
  - apply distinct_keys_dict in Hdk as [Hnd Hdk].
    assert (Forall (λ kt, alloc_ok kt.2) kts) as Hok.
    { apply Forall_forall. intros kt Hin.
      rewrite Forall_forall in IH, Hdk. auto. }
    destruct (alloc_items_ok kts [] h Hok Hnd) as [Hsub (kvs & Heq & HF)].
    { intros k _. apply not_elem_of_nil. }
    revert Hsub Heq HF.
    simpl. destruct (alloc_items alloc kts [] h) as [d h1]. simpl.
    intros Hsub -> HF.
    assert (h1 !! fresh (dom h1) = None) as Hfr.
    { apply not_elem_of_dom, is_fresh. }
    assert (h1 ⊆ <[fresh (dom h1) := ODict (prod_map VStr id <$> kvs)]> h1)
      as Hsub1 by (by apply insert_subseteq).
    split; [by etrans|].
    apply denotes_dict. eexists _, _.
    split_and!; [done|apply lookup_insert_eq|done|].
    apply Forall2_fmap_r.
    eapply Forall2_impl; [exact HF|].
    intros [k t] [k' v] [Hk Hd]. simpl in *. subst k'.
    split; [done|]. by eapply denotes_mono.
Qed.

(** ** The methods on an open and on a closed store *)

Ltac destruct_state s :=
  let wb := fresh "wb" in let c := fresh "c" in let cn := fresh "cn" in
  let h := fresh "h" in let r := fresh "r" in let o := fresh "o" in
  let rel := fresh "rel" in
  destruct s as [[wb c cn] [h r o rel]]; simpl in *.

Ltac unfold_methods :=
  unfold __getitem__, __setitem__, __delitem__, __contains__, __len__,
    __iter__, sync, close, _update_cache, with_conn, try_finally,
    try_except_closed, loads, dumps, cache, conn, execute_GET, execute_SET,
    execute_DEL, execute_ITER, execute_LEN, conn_close, bind, ret, raise,
    lift, modify, set_cache, set_conn, set_rows, set_objects, set_released
    in *.

Lemma dict_pop_absent k d : k ∉ d.*1 → dict_pop k d = d.
Proof.
  unfold dict_pop. induction d as [|[k' v] d IH]; [done|]. simpl.
  rewrite not_elem_of_cons. intros [Hne Hnin].
  rewrite filter_cons. simpl. rewrite decide_True by done. by rewrite IH.
Qed.

Section methods.
Context `{Collaborators}.

Lemma close_is_closed s : is_closed (close s).2.
Proof.
  destruct_state s. unfold_methods. simpl.
  repeat (case_match; simplify_eq/=); done.
Qed.

Lemma sync_body_eq k v s cn :
  _conn (self s) = Some cn →
  sync_body (k, v) s =
  match json_dumps (objects (env s)) v with
  | Ok jstr => (Ok tt, set_rows (<[k := jstr]> (rows (env s))) s)
  | Raise e => (Raise e, s)
  end.
Proof.
  intros Hcn. unfold sync_body, bind, dumps, conn, execute_SET, modify.
  simpl. destruct (json_dumps _ v); [|done]. by rewrite Hcn.
Qed.

Lemma sync_loop c s cn :
  _conn (self s) = Some cn →
  match sync_rows (objects (env s)) c (rows (env s)) with
  | Ok r' => for_each c sync_body s = (Ok tt, set_rows r' s)
  | Raise e => ∃ r', for_each c sync_body s = (Raise e, set_rows r' s)
  end.
Proof.
  revert s. induction c as [|[k v] c IH]; intros s Hcn; simpl.
  - by destruct_state s.
  - unfold bind. rewrite (sync_body_eq _ _ _ _ Hcn).
    destruct (json_dumps (objects (env s)) v) as [jstr|e] eqn:Hj.
    + specialize (IH (set_rows (<[k:=jstr]> (rows (env s))) s) Hcn).
      simpl in IH.
      destruct (sync_rows _ c _) as [r'|e].
      * rewrite IH. by destruct_state s.
      * destruct IH as [r' ->]. exists r'. by destruct_state s.
    + exists (rows (env s)). by destruct_state s.
Qed.

Lemma sync_open s c cn :
  _cache (self s) = Some c → _conn (self s) = Some cn →
  sync s =
  match sync_rows (objects (env s)) c (rows (env s)) with
  | Ok r' => (Ok tt, set_rows r' s)
  | Raise e => (Raise e, s)
  end.
Proof.
  intros Hc Hcn.
  pose proof (sync_loop c s cn Hcn) as Hloop.
  unfold sync, with_conn, bind, cache, conn. rewrite Hc.
  destruct c as [|kv c]; [done|]. rewrite Hcn, Hc.
  destruct (sync_rows _ (kv :: c) _) as [r'|e].
  - by rewrite Hloop.
  - destruct Hloop as [r' ->]. by destruct_state s.
Qed.

Lemma sync_closed s : _cache (self s) = None → sync s = (Raise CupboardClosedError, s).
Proof. intros Hc. unfold sync, bind, cache. by rewrite Hc. Qed.

Lemma sync_rows_lookup_notin h c r r' k :
  sync_rows h c r = Ok r' → k ∉ c.*1 → r' !! k = r !! k.
Proof.
  revert r. induction c as [|[k0 v] c IH]; intros r; simpl.
  - by intros [= ->].
  - rewrite not_elem_of_cons. destruct (json_dumps h v); [|done].
    intros Hs [Hne Hnin]. rewrite (IH _ Hs Hnin).
    by rewrite lookup_insert_ne.
Qed.

Lemma sync_rows_lookup h c r r' k v :
  sync_rows h c r = Ok r' → NoDup c.*1 → (k, v) ∈ c →
  ∃ jstr, json_dumps h v = Ok jstr ∧ r' !! k = Some jstr.
Proof.
  revert r. induction c as [|[k0 v0] c IH]; intros r; simpl.
  - intros _ _ Hin. by apply elem_of_nil in Hin.
  - destruct (json_dumps h v0) as [jstr|] eqn:Hj; [|done].
    intros Hs [Hnin Hnd]%NoDup_cons [Heq|Hin]%elem_of_cons.
    + injection Heq as -> ->. exists jstr. split; [done|].
      rewrite (sync_rows_lookup_notin _ _ _ _ _ Hs Hnin).
      apply lookup_insert_eq.
    + eauto.
Qed.

Lemma sync_rows_dom h c r r' :
  sync_rows h c r = Ok r' → dom r' = dom r ∪ list_to_set c.*1.
Proof.
  revert r. induction c as [|[k v] c IH]; intros r; simpl.
  - intros [= ->]. set_solver.
  - destruct (json_dumps h v); [|done]. intros Hs.
    rewrite (IH _ Hs), dom_insert_L. set_solver.
Qed.

Lemma sync_rows_ok h c r :
  Forall (λ kv, ∃ t, denotes h t kv.2) c → ∃ r', sync_rows h c r = Ok r'.
Proof.
  intros Hc. revert r. induction Hc as [|[k v] c [t Ht] Hc IH]; intros r.
  - by exists r.
  - simpl in *. rewrite (json_dumps_denotes _ _ _ Ht). apply IH.
Qed.

End methods.

Example ref_codec_render :
  RefCodec.render_tree (JList [JInt 1; JBool true; JDict [("k"%string, JNull)]])
  = String "[" (String "1" (String "," (String " "
      ("true, {" +:+ RefCodec.quote "k" +:+ ": null}]"))))%string.
Proof. vm_compute. reflexivity. Qed.

Example ref_codec_roundtrip :
  let t := JList [JInt (-12); JStr "a b"; JFloat 7%N;
                  JDict [("k"%string, JList []); ("l"%string, JBool false)]] in
  RefCodec.parse_text (RefCodec.render_tree t) = Some t.
Proof. vm_compute. reflexivity. Qed.

(** ** The methods on an open store, as equations *)

Section equations.
Context `{Collaborators}.

Lemma update_cache_eq k v s c :
  _cache (self s) = Some c →
  _update_cache k v s
  = (Ok tt, set_cache (Some (updated (writeback (self s)) k v c)) s).
Proof.
  intros Hc. unfold updated, _update_cache, bind, cache, modify.
  rewrite Hc. simpl.
  by destruct (writeback (self s) && is_dict_or_list v).
Qed.

Lemma getitem_eq k s c cn :
  _cache (self s) = Some c → _conn (self s) = Some cn →
  __getitem__ (VStr k) s =
  match dict_get k c with
  | Some v => (Ok v, s)
  | None =>
      match rows (env s) !! k with
      | None => (Raise (KeyError k), s)
      | Some jstr =>
          match parse jstr with
          | None => (Raise ValueError_decode, s)
          | Some t =>
              (Ok (alloc t (objects (env s))).1,
               set_cache
                 (Some (updated (writeback (self s)) k
                          (alloc t (objects (env s))).1 c))
                 (set_objects (alloc t (objects (env s))).2 s))
          end
      end
  end.
Proof.
  intros Hc Hcn.
  unfold __getitem__, bind, cache, conn, execute_GET, raise, ret.
  rewrite Hc. destruct (dict_get k c); [done|]. rewrite Hcn.
  destruct (rows (env s) !! k) as [jstr|]; [|done].
  unfold loads, json_loads.
  destruct (parse jstr) as [t|]; [|done].
  destruct (alloc t (objects (env s))) as [v h'] eqn:Ha. simpl.
  by rewrite (update_cache_eq k v (set_objects h' s) c).
Qed.

Lemma setitem_eq k v s c cn :
  _cache (self s) = Some c → _conn (self s) = Some cn →
  __setitem__ (VStr k) v s =
  match json_dumps (objects (env s)) v with
  | Raise e => (Raise e, s)
  | Ok jstr =>
      (Ok tt,
       set_cache (Some (updated (writeback (self s)) k v c))
         (set_rows (<[k := jstr]> (rows (env s))) s))
  end.
Proof.
  intros Hc Hcn.
  unfold __setitem__, bind, dumps, with_conn, conn, execute_SET, modify.
  destruct (json_dumps (objects (env s)) v) as [jstr|]; [|done].
  rewrite Hcn. simpl. rewrite Hcn.
  by rewrite (update_cache_eq k v (set_rows _ s) c).
Qed.

Lemma delitem_eq key s c cn :
  _cache (self s) = Some c → _conn (self s) = Some cn →
  __delitem__ key s =
  match sql_bind key with
  | Raise e => (Raise e, s)
  | Ok x =>
      let s1 := match key_matching x with
                | None => s
                | Some k => set_rows (delete k (rows (env s))) s
                end in
      match cache_pop key c with
      | Raise e => (Raise e, s1)
      | Ok c' => (Ok tt, set_cache (Some c') s1)
      end
  end.
Proof.
  intros Hc Hcn.
  unfold __delitem__, bind, with_conn, conn, execute_DEL, lift, bind, cache,
    modify, ret.
  rewrite Hcn. simpl. rewrite Hcn.
  destruct (sql_bind key) as [x|]; [|by destruct_state s].
  destruct (key_matching x); simpl; rewrite Hc;
    by destruct (cache_pop key c).
Qed.

Lemma delitem_str_eq k s c cn :
  _cache (self s) = Some c → _conn (self s) = Some cn →
  __delitem__ (VStr k) s =
  (Ok tt, set_cache (Some (dict_pop k c))
            (set_rows (delete k (rows (env s))) s)).
Proof. intros Hc Hcn. by rewrite (delitem_eq _ _ _ _ Hc Hcn). Qed.

Lemma len_eq s cn :
  _conn (self s) = Some cn → __len__ s = (Ok (size (rows (env s))), s).
Proof.
  intros Hcn. unfold __len__, bind, conn, execute_LEN, ret. by rewrite Hcn.
Qed.

Lemma iter_eq s cn :
  _conn (self s) = Some cn →
  __iter__ s = (Ok (elements (dom (rows (env s)))), s).
Proof. intros Hcn. unfold __iter__, bind, conn, execute_ITER. by rewrite Hcn. Qed.

End equations.

(** * The claims *)

Section claims.
Context `{Collaborators}.

(** ** Rejected writes *)

Lemma json_dumps_other h n : json_dumps h (VOther n) = Raise TypeError_json.
Proof. done. Qed.

(** C5.  [set] is atomic on failure.  With a key that is not text it
    raises the key [TypeError] (InvalidKey) and the state, rows
    included, is what it was.  With a text key and a value the codec
    refuses it raises the codec's error (UnsupportedValue: [TypeError]
    for an object json cannot serialise) and again the state is what it
    was: the row of the key, every other row and the cache are
    untouched. *)
Theorem setitem_failure_atomic (s : state) (key v : value) :
  (is_str key = false → __setitem__ key v s = (Raise TypeError_key, s)) ∧
  (∀ e, is_str key = true →
        json_dumps (objects (env s)) v = Raise e →
        __setitem__ key v s = (Raise e, s)) ∧
  (∀ n, v = VOther n → json_dumps (objects (env s)) v = Raise TypeError_json).
Proof.
  split_and!.
  - by destruct key.
  - intros e Hk Hj. destruct key; try done.
    unfold __setitem__, bind, dumps. by rewrite Hj.
  - by intros n ->.
Qed.

(** ** Absent keys *)

(** C6.  For a key absent from an open store, [get] raises [KeyError]
    (KeyNotFound), [delete] returns and changes nothing, and
    [contains] is false. *)
Theorem absent_key (s : state) (k : string) :
  is_open s → ¬ present k s →
  __getitem__ (VStr k) s = (Raise (KeyError k), s) ∧
  __delitem__ (VStr k) s = (Ok tt, s) ∧
  __contains__ (VStr k) s = (Ok false, s).
Proof.
  intros [[c Hc] [cn Hcn]] Habs. unfold present, cached in Habs.
  destruct_state s. simplify_eq/=.
  assert (r !! k = None) as Hr.
  { apply eq_None_not_Some. tauto. }
  assert (dict_get k c = None) as Hg.
  { apply eq_None_not_Some. tauto. }
  assert (__getitem__ (VStr k)
            {| self := {| writeback := wb; _cache := Some c; _conn := Some cn |};
               env := {| objects := h; rows := r; opened := o;
                         released := rel |} |}
          = (Raise (KeyError k),
            {| self := {| writeback := wb; _cache := Some c; _conn := Some cn |};
               env := {| objects := h; rows := r; opened := o;
                         released := rel |} |})) as Hget.
  { unfold_methods. simpl. rewrite Hg. simpl. by rewrite Hr. }
  split_and!; [done| |].
  - unfold_methods. simpl.
    rewrite dict_pop_absent by (by apply dict_get_None).
    by rewrite delete_id.
  - unfold __contains__. by rewrite Hget.
Qed.

(** ** Closed stores *)

(** Every method but [close] raises on a closed store and leaves it as
    it is.  [delete], iteration and [size] reach the closed check at
    once; [get] checks the type of the key first, and [set] the type of
    the key and then the value, so that their own errors come first. *)
Lemma closed_methods (s : state) (key v : value) :
  is_closed s →
  __delitem__ key s = (Raise CupboardClosedError, s) ∧
  __iter__ s = (Raise CupboardClosedError, s) ∧
  __len__ s = (Raise CupboardClosedError, s) ∧
  __getitem__ key s =
    (Raise (if is_str key then CupboardClosedError else TypeError_key), s) ∧
  __setitem__ key v s =
    (Raise (if is_str key then
              match json_dumps (objects (env s)) v with
              | Ok _ => CupboardClosedError
              | Raise e => e
              end
            else TypeError_key), s).
Proof.
  intros [Hc Hcn]. destruct_state s. subst c cn.
  split_and!; try done.
  - by destruct key.
  - destruct key; try done. unfold_methods. simpl. by destruct (json_dumps h v).
Qed.

Lemma close_closed (s : state) : is_closed s → close s = (Ok tt, s).
Proof. intros [Hc Hcn]. destruct_state s. by subst c cn. Qed.

Lemma close_open_ok (s s' : state) (cn : connection) :
  _conn (self s) = Some cn → sync s = (Ok tt, s') →
  close s = (Ok tt, closed_after cn s').
Proof.
  intros Hcn Hsync.
  assert (_conn (self s') = Some cn) as Hcn'.
  { destruct (_cache (self s)) as [c|] eqn:Hc.
    - rewrite (sync_open _ _ _ Hc Hcn) in Hsync.
      destruct (sync_rows _ _ _); by simplify_eq/=.
    - by rewrite (sync_closed _ Hc) in Hsync. }
  unfold close, try_finally, try_except_closed, bind at 1. rewrite Hsync.
  unfold bind, conn, conn_close, modify. rewrite Hcn'.
  by destruct_state s'.
Qed.

Lemma result_mapM_Raise {A B} (f : A → result B) l e :
  result_mapM f l = Raise e → ∃ x, x ∈ l ∧ f x = Raise e.
Proof.
  induction l as [|x l IH]; simpl; [done|].
  destruct (f x) as [y|e'] eqn:Hx; simpl.
  - destruct (result_mapM f l); simpl; [done|].
    intros [= ->]. destruct IH as (x' & ? & ?); [done|].
    exists x'. split; [by right|done].
  - intros [= ->]. exists x. split; [left|done].
Qed.

(** What the encoder can raise. *)
Lemma to_json_Raise fuel markers h v e :
  to_json fuel markers h v = Raise e →
  e = TypeError_json ∨ e = ValueError_circular ∨ e = Stuck.
Proof.
  revert markers v.
  induction fuel as [|fuel IH]; intros markers v;
    (destruct v; simpl; try done; [|by intros [= <-]; auto]);
    (case_decide; [by intros [= <-]; auto|]).
  - intros [= <-]; auto.
  - destruct (h !! l) as [[items|items]|]; [| |by intros [= <-]; auto].
    + destruct (result_mapM _ items) eqn:Hm; simpl; [done|].
      intros [= ->]. apply result_mapM_Raise in Hm as (x & _ & Hx). eauto.
    + destruct (result_mapM _ items) eqn:Hm; simpl; [done|].
      intros [= ->]. apply result_mapM_Raise in Hm as ([k x] & _ & Hx).
      simpl in Hx. destruct (json_key k) eqn:Hk; simpl in Hx.
      * destruct (to_json fuel _ h x) eqn:Hx'; simpl in Hx; [done|].
        injection Hx as ->. eauto.
      * injection Hx as ->. left. destruct k as [| [] | | | | |]; by simplify_eq/=.
Qed.

Lemma json_dumps_Raise h v e :
  json_dumps h v = Raise e →
  e = TypeError_json ∨ e = ValueError_circular ∨ e = Stuck.
Proof.
  unfold json_dumps. destruct (to_json _ _ h v) eqn:Ht; simpl; [done|].
  intros [= ->]. by eapply to_json_Raise.
Qed.

Lemma sync_rows_Raise h c r e :
  sync_rows h c r = Raise e →
  e = TypeError_json ∨ e = ValueError_circular ∨ e = Stuck.
Proof.
  revert r. induction c as [|[k v] c IH]; intros r; simpl; [done|].
  destruct (json_dumps h v) eqn:Hj; [by apply IH|].
  intros [= ->]. by eapply json_dumps_Raise.
Qed.

Lemma close_open_raise (s s' : state) (e : exn) :
  is_open s → sync s = (Raise e, s') →
  s' = s ∧ e ≠ CupboardClosedError ∧
  close s = (Raise e, set_cache None (set_conn None s)).
Proof.
  intros [[c Hc] [cn Hcn]] Hsync.
  rewrite (sync_open _ _ _ Hc Hcn) in Hsync.
  destruct (sync_rows _ _ _) as [|e'] eqn:Hr; [done|].
  injection Hsync as -> ->.
  assert (e ≠ CupboardClosedError) as Hne.
  { apply sync_rows_Raise in Hr. naive_solver. }
  split_and!; [done..|].
  unfold close, try_finally, try_except_closed, bind at 1.
  rewrite (sync_open _ _ _ Hc Hcn), Hr.
  destruct e; try done.
Qed.

End claims.

(** ** The encoder always answers *)

Section total.
Context `{Collaborators}.

Lemma json_key_Raise k e : json_key k = Raise e → e = TypeError_json.
Proof. destruct k as [|b| | | | |]; try destruct b; simpl; congruence. Qed.

Lemma to_json_not_stuck fuel markers h v :
  heap_closed h →
  (∀ l, v = VRef l → is_Some (h !! l)) →
  markers ⊆ dom h →
  (size (dom h) < fuel + size markers)%nat →
  to_json fuel markers h v ≠ Raise Stuck.
Proof.
  intros Hclosed. revert markers v.
  induction fuel as [|fuel IH]; intros markers v Hv Hsub Hfuel;
    (destruct v as [| | | | |l|]; try done).
  - simpl. case_decide as Hin; [done|].
    destruct (Hv l eq_refl) as [o Hl].
    assert (l ∈ dom h) as Hdom by (apply elem_of_dom; eauto).
    assert ({[l]} ∪ markers ⊆ dom h) as Hsub' by set_solver.
    apply subseteq_size in Hsub'.
    rewrite size_union, size_singleton in Hsub' by set_solver. lia.
  - simpl. case_decide as Hin; [done|].
    destruct (Hv l eq_refl) as [o Hl]. rewrite Hl.
    assert (l ∈ dom h) as Hdom by (apply elem_of_dom; eauto).
    assert ({[l]} ∪ markers ⊆ dom h) as Hsub' by set_solver.
    assert (size ({[l]} ∪ markers) = S (size markers)) as Hsize.
    { rewrite size_union by set_solver. by rewrite size_singleton. }
    assert (∀ x, x ∈ children o →
              to_json fuel ({[l]} ∪ markers) h x ≠ Raise Stuck) as Hchild.
    { intros x Hx. apply IH; [|done|lia].
      intros l' ->. by eapply Hclosed. }
    destruct o as [items|items]; simpl in Hchild.
    + destruct (result_mapM _ items) as [|e] eqn:Hm; simpl; [done|].
      apply result_mapM_Raise in Hm as (x & Hx & Hr).
      intros [= ->]. by eapply Hchild.
    + destruct (result_mapM _ items) as [|e] eqn:Hm; simpl; [done|].
      apply result_mapM_Raise in Hm as ([k x] & Hx & Hr).
      intros [= ->]. simpl in Hr.
      destruct (json_key k) eqn:Hk; simpl in Hr.
      * destruct (to_json fuel _ h x) eqn:Hx'; simpl in Hr; [done|].
        injection Hr as ->. eapply Hchild; [|done].
        apply list_elem_of_fmap. by exists (k, x).
      * injection Hr as ->. by apply json_key_Raise in Hk.
Qed.

(** In a heap without dangling references [json.dumps] returns text or
    raises one of json's two exceptions: the fuel of the model is never
    exhausted. *)
Lemma json_dumps_total h v :
  heap_closed h →
  (∀ l, v = VRef l → is_Some (h !! l)) →
  (∃ jstr, json_dumps h v = Ok jstr) ∨
  json_dumps h v = Raise TypeError_json ∨
  json_dumps h v = Raise ValueError_circular.
Proof.
  intros Hclosed Hv. unfold json_dumps.
  destruct (to_json (to_json_fuel h) ∅ h v) as [t|e] eqn:Ht; simpl; [eauto|].
  right. destruct (to_json_Raise _ _ _ _ _ Ht) as [-> | [-> | ->]]; auto.
  exfalso. revert Ht. apply to_json_not_stuck; [done..| |].
  - set_solver.
  - unfold to_json_fuel. rewrite size_empty. lia.
Qed.

End total.

(** ** Closing *)

Section closing.
Context `{Collaborators}.

(** C3, as the code has it.  After [close], [delete], iteration and
    [size] raise [CupboardClosedError] whatever their argument; [get]
    raises it for a text key and the key [TypeError] (InvalidKey)
    otherwise; [set] raises it for a text key and a value the codec
    accepts, the key [TypeError] for a key that is not text, and the
    codec's error (UnsupportedValue) for a text key and a value the
    codec refuses.  In every case the store is left as it was. *)
Theorem closed_store_rejects (s : state) (key v : value) :
  is_closed s →
  __delitem__ key s = (Raise CupboardClosedError, s) ∧
  __iter__ s = (Raise CupboardClosedError, s) ∧
  __len__ s = (Raise CupboardClosedError, s) ∧
  __getitem__ key s =
    (Raise (if is_str key then CupboardClosedError else TypeError_key), s) ∧
  __setitem__ key v s =
    (Raise (if is_str key then
              match json_dumps (objects (env s)) v with
              | Ok _ => CupboardClosedError
              | Raise e => e
              end
            else TypeError_key), s).
Proof. apply closed_methods. Qed.

(** C8.  [close] is idempotent.  On a store whose [sync] returns, the
    first [close] returns, leaves the rows [sync] wrote, releases the
    connection once and clears both references.  On the closed store
    every further [close] returns and changes nothing: the log of
    releases still holds the connection exactly once more than before
    the first [close]. *)
Theorem close_idempotent (s s' : state) (cn : connection) (n : nat) :
  _conn (self s) = Some cn → sync s = (Ok tt, s') →
  let s1 := closed_after cn s' in
  close s = (Ok tt, s1) ∧
  is_closed s1 ∧
  rows (env s1) = rows (env s') ∧
  released (env s1) = cn :: released (env s) ∧
  close (Nat.iter n (λ x, (close x).2) s1) = (Ok tt, s1).
Proof.
  intros Hcn Hsync s1.
  assert (is_closed s1) as Hcl by (by destruct_state s').
  assert (released (env s') = released (env s)) as Hrel.
  { destruct (_cache (self s)) as [c|] eqn:Hc.
    - rewrite (sync_open _ _ _ Hc Hcn) in Hsync.
      destruct (sync_rows _ _ _); simplify_eq/=. by destruct_state s.
    - by rewrite (sync_closed _ Hc) in Hsync. }
  split_and!; [by apply close_open_ok|done|by destruct_state s'| |].
  - subst s1. destruct_state s'. by rewrite Hrel.
  - assert (Nat.iter n (λ x, (close x).2) s1 = s1) as ->.
    { induction n as [|n IH]; simpl; [done|].
      by rewrite IH, close_closed. }
    by apply close_closed.
Qed.

(** C10, as the code has it.  When [sync] raises during the first
    [close] of an open store, [close] raises the same exception, the
    rows and the log of releases are what they were (the connection is
    not released) and both references are cleared.  From then on
    [close] returns and changes nothing, and the other methods raise
    as on any closed store: [CupboardClosedError], after the check of
    the key for [get], and of the key and the value for [set]. *)
Theorem close_failing_sync (s s' : state) (e : exn) (key v : value) :
  is_open s → sync s = (Raise e, s') →
  let s1 := set_cache None (set_conn None s) in
  close s = (Raise e, s1) ∧
  is_closed s1 ∧
  rows (env s1) = rows (env s) ∧
  released (env s1) = released (env s) ∧
  close s1 = (Ok tt, s1) ∧
  __delitem__ key s1 = (Raise CupboardClosedError, s1) ∧
  __iter__ s1 = (Raise CupboardClosedError, s1) ∧
  __len__ s1 = (Raise CupboardClosedError, s1) ∧
  __getitem__ key s1 =
    (Raise (if is_str key then CupboardClosedError else TypeError_key), s1) ∧
  __setitem__ key v s1 =
    (Raise (if is_str key then
              match json_dumps (objects (env s1)) v with
              | Ok _ => CupboardClosedError
              | Raise e => e
              end
            else TypeError_key), s1).
Proof.
  intros Hopen Hsync s1.
  destruct (close_open_raise _ _ _ Hopen Hsync) as (_ & _ & Hclose).
  assert (is_closed s1) as Hcl by (by destruct_state s).
  repeat (split; [first [done|by destruct_state s|by apply close_closed]|]).
  by apply closed_methods.
Qed.

End closing.

(** ** The cache invariant *)

Lemma pop_ok wb k c : cache_ok wb c → cache_ok wb (dict_pop k c).
Proof.
  intros (Hnd & Hall & Hwb). split_and!.
  - by apply dict_pop_NoDup.
  - by apply dict_pop_Forall.
  - intros ->%Hwb. done.
Qed.

Lemma updated_ok wb k v c : cache_ok wb c → cache_ok wb (updated wb k v c).
Proof.
  intros Hc. unfold updated.
  destruct (wb && is_dict_or_list v) eqn:Hb; [|by apply pop_ok].
  apply andb_prop in Hb as [-> Hv].
  destruct (pop_ok true k c Hc) as (Hnd & Hall & _). split_and!.
  - by apply dict_set_NoDup.
  - by apply dict_set_Forall.
  - done.
Qed.

Lemma cache_inv_same_self s s' : self s' = self s → cache_inv s → cache_inv s'.
Proof. unfold cache_inv. by intros ->. Qed.

Lemma cache_inv_set_cache s c' :
  cache_inv s → is_Some (_cache (self s)) →
  cache_ok (writeback (self s)) c' → cache_inv (set_cache (Some c') s).
Proof.
  intros [Hiff Hok] Hsome Hc'. split; simpl.
  - split; [by intros _; apply Hiff|eauto].
  - by intros c [= <-].
Qed.

Lemma cache_inv_cases s :
  cache_inv s →
  is_closed s ∨
  ∃ c cn, _cache (self s) = Some c ∧ _conn (self s) = Some cn ∧
          cache_ok (writeback (self s)) c.
Proof.
  intros [Hiff Hok]. destruct (_cache (self s)) as [c|] eqn:Hc.
  - right. destruct Hiff as [[cn Hcn] _]; [by eauto|]. eauto 10.
  - left. split; [done|]. apply eq_None_not_Some. intros Hcn%Hiff.
    by destruct Hcn.
Qed.

Section invariant.
Context `{Collaborators}.

Lemma contains_state key s : (__contains__ key s).2 = (__getitem__ key s).2.
Proof.
  unfold __contains__. destruct (__getitem__ key s) as [[v|e] s'];
    [done|]. by destruct e.
Qed.

Lemma void_state {A} (m : M A) s : (void m s).2 = (m s).2.
Proof. unfold void. by destruct (m s) as [[|] ?]. Qed.

(** A call on a closed store leaves the state as it is, but for the
    heap when the caller mutates an object. *)
Lemma run_call_closed c s : is_closed s → self (run_call c s).2 = self s.
Proof.
  intros Hcl.
  destruct (closed_methods s VNone VNone Hcl) as (_ & Hiter & Hlen & _).
  destruct c as [key|key v|key|key| | | | |l o]; simpl;
    rewrite ?void_state, ?contains_state.
  - by destruct (closed_methods s key VNone Hcl) as (_ & _ & _ & -> & _).
  - by destruct (closed_methods s key v Hcl) as (_ & _ & _ & _ & ->).
  - by destruct (closed_methods s key VNone Hcl) as (-> & _).
  - by destruct (closed_methods s key VNone Hcl) as (_ & _ & _ & -> & _).
  - by rewrite Hlen.
  - by rewrite Hiter.
  - destruct Hcl as [Hc _]. by rewrite (sync_closed _ Hc).
  - by rewrite close_closed.
  - done.
Qed.

Lemma getitem_inv key s : cache_inv s → cache_inv (__getitem__ key s).2.
Proof.
  intros Hinv. destruct (cache_inv_cases s Hinv) as [Hcl|(c & cn & Hc & Hcn & Hok)].
  - by destruct (closed_methods s key VNone Hcl) as (_ & _ & _ & -> & _).
  - destruct key as [| | | |k| |]; try done.
    rewrite (getitem_eq _ _ _ _ Hc Hcn).
    destruct (dict_get k c); [done|].
    destruct (rows (env s) !! k); [|done].
    destruct (parse _); [|done]. simpl.
    apply (cache_inv_set_cache (set_objects _ s)).
    + by eapply cache_inv_same_self.
    + simpl. by rewrite Hc.
    + by apply updated_ok.
Qed.

Lemma run_call_inv c s : cache_inv s → cache_inv (run_call c s).2.
Proof.
  intros Hinv.
  destruct (cache_inv_cases s Hinv) as [Hcl|(ch & cn & Hc & Hcn & Hok)].
  { eapply cache_inv_same_self; [by apply run_call_closed|done]. }
  destruct c as [key|key v|key|key| | | | |l o]; simpl;
    rewrite ?void_state, ?contains_state.
  - by apply getitem_inv.
  - destruct key as [| | | |k| |]; try done.
    rewrite (setitem_eq _ _ _ _ _ Hc Hcn).
    destruct (json_dumps _ v); [|done]. simpl.
    apply (cache_inv_set_cache (set_rows _ s)).
    + by eapply cache_inv_same_self.
    + simpl. by rewrite Hc.
    + by apply updated_ok.
  - rewrite (delitem_eq _ _ _ _ Hc Hcn).
    destruct (sql_bind key) as [x|]; [|done]. simpl.
    assert (cache_inv match key_matching x with
                      | Some k => set_rows (delete k (rows (env s))) s
                      | None => s
                      end) as Hinv1.
    { destruct (key_matching x); [|done]. by eapply cache_inv_same_self. }
    destruct (cache_pop key ch) as [c'|] eqn:Hpop; [|done]. simpl.
    apply cache_inv_set_cache; [done| |].
    + destruct (key_matching x); simpl; by rewrite Hc.
    + assert (writeback (self match key_matching x with
                      | Some k => set_rows (delete k (rows (env s))) s
                      | None => s
                      end) = writeback (self s)) as ->
        by (by destruct (key_matching x)).
      destruct key; simplify_eq/=; try done. by apply pop_ok.
  - by apply getitem_inv.
  - by rewrite (len_eq _ _ Hcn).
  - by rewrite (iter_eq _ _ Hcn).
  - rewrite (sync_open _ _ _ Hc Hcn).
    destruct (sync_rows _ _ _); [|done]. by eapply cache_inv_same_self.
  - destruct (close_is_closed s) as [Hc' Hcn']. split.
    + rewrite Hc', Hcn'. done.
    + intros c. by rewrite Hc'.
  - by eapply cache_inv_same_self.
Qed.

Lemma reachable_inv s : reachable s → cache_inv s.
Proof.
  induction 1 as [flag wb w s Hopen|s c Hreach IH].
  - unfold open, __init__ in Hopen. case_decide; [|done].
    injection Hopen as <-. split; simpl.
    + split; eauto.
    + intros c [= <-]. split_and!; [constructor|constructor|done].
  - by apply run_call_inv.
Qed.

End invariant.

Section cache_claims.
Context `{Collaborators}.

Lemma updated_scalar wb k v c :
  is_dict_or_list v = false → dict_get k (updated wb k v c) = None.
Proof.
  intros Hv. unfold updated. rewrite Hv, andb_false_r.
  apply dict_get_pop_eq.
Qed.

(** C4.  In every reachable state the cache, while the store is open,
    holds only lists and dicts and is empty unless write-back is on.  A
    key has no entry in the cache after a [set] that stored a value
    that is neither a list nor a dict under it, after a [delete] of it,
    and after a [get] of it that returned such a value. *)
Theorem cache_holds_mutable_only (s : state) :
  reachable s →
  (∀ c, _cache (self s) = Some c →
        Forall (λ kv, is_dict_or_list kv.2 = true) c ∧
        (c ≠ [] → writeback (self s) = true)) ∧
  (∀ key v s', is_dict_or_list v = false →
        __setitem__ key v s = (Ok tt, s') → ¬ cached key s') ∧
  (∀ key s', __delitem__ key s = (Ok tt, s') → ¬ cached key s') ∧
  (∀ key v s', is_dict_or_list v = false →
        __getitem__ key s = (Ok v, s') → ¬ cached key s').
Proof.
  intros Hinv%reachable_inv.
  destruct (cache_inv_cases s Hinv) as [Hcl|(c & cn & Hc & Hcn & Hok)].
  { destruct Hcl as [Hc Hcn]. split_and!.
    - intros c. by rewrite Hc.
    - intros key v s' _ Hset.
      destruct (closed_methods s key v (conj Hc Hcn)) as (_ & _ & _ & _ & Hs).
      by rewrite Hs in Hset.
    - intros key s' Hdel.
      destruct (closed_methods s key VNone (conj Hc Hcn)) as (Hd & _).
      by rewrite Hd in Hdel.
    - intros key v s' _ Hget.
      destruct (closed_methods s key VNone (conj Hc Hcn))
        as (_ & _ & _ & Hg & _).
      by rewrite Hg in Hget. }
  destruct Hok as (Hnd & Hall & Hwb). split_and!.
  - intros c' Hc'. rewrite Hc in Hc'. injection Hc' as <-.
    split; [done|]. intros Hne. destruct (writeback (self s)); [done|].
    by destruct Hne; apply Hwb.
  - intros key v s' Hv Hset. destruct key as [| | | |k| |]; try done.
    rewrite (setitem_eq _ _ _ _ _ Hc Hcn) in Hset.
    destruct (json_dumps _ v); [|done]. injection Hset as <-.
    unfold cached. simpl. rewrite updated_scalar by done.
    by intros [??].
  - intros key s' Hdel.
    destruct key as [| | | |k| |]; try (unfold cached; simpl; tauto).
    rewrite (delitem_str_eq _ _ _ _ Hc Hcn) in Hdel. injection Hdel as <-.
    unfold cached. simpl. rewrite dict_get_pop_eq. by intros [??].
  - intros key v s' Hv Hget. destruct key as [| | | |k| |]; try done.
    rewrite (getitem_eq _ _ _ _ Hc Hcn) in Hget.
    destruct (dict_get k c) as [v'|] eqn:Hk.
    + injection Hget as -> <-.
      apply dict_get_Some_elem in Hk.
      rewrite Forall_forall in Hall. apply Hall in Hk. simpl in Hk.
      congruence.
    + destruct (rows (env s) !! k); [|done].
      destruct (parse _) as [t|]; [|done].
      injection Hget as Hv' <-. unfold cached. simpl.
      rewrite Hv', updated_scalar by done. by intros [??].
Qed.

End cache_claims.

(** ** Size *)

Section size.
Context `{Collaborators}.

Lemma updated_keys wb k v c k' :
  k' ∈ (updated wb k v c).*1 → k' = k ∨ k' ∈ c.*1.
Proof.
  unfold updated. destruct (wb && is_dict_or_list v).
  - rewrite dict_set_keys, dict_pop_keys. tauto.
  - rewrite dict_pop_keys. tauto.
Qed.

Lemma updated_keys_ne wb k v c k' :
  k' ∈ (updated wb k v c).*1 → k' ≠ k → k' ∈ (dict_pop k c).*1.
Proof.
  unfold updated. destruct (wb && is_dict_or_list v); [|done].
  rewrite dict_set_keys. tauto.
Qed.

Lemma run_op_backed o s K :
  backed K s →
  backed (live_step K (o, (run_call (op_call o) s).1))
         (run_call (op_call o) s).2.
Proof.
  intros (c & cn & Hc & Hcn & Hdom & Hsub).
  destruct o as [k v|k|k| |l ob]; unfold op_call, run_call.
  - rewrite (setitem_eq _ _ _ _ _ Hc Hcn).
    destruct (json_dumps _ v); simpl; [|by exists c, cn].
    eexists _, cn. split_and!; [done..| |]; simpl.
    + rewrite dom_insert_L. by rewrite Hdom.
    + intros k' [->|Hin]%updated_keys; set_solver.
  - rewrite (delitem_str_eq _ _ _ _ Hc Hcn). simpl.
    eexists _, cn. split_and!; [done..| |]; simpl.
    + rewrite dom_delete_L. by rewrite Hdom.
    + intros k' [Hne Hin]%dict_pop_keys. set_solver.
  - unfold void. rewrite (getitem_eq _ _ _ _ Hc Hcn).
    destruct (dict_get k c); simpl; [by exists c, cn|].
    destruct (rows (env s) !! k) eqn:Hk; simpl; [|by exists c, cn].
    destruct (parse _); simpl; [|by exists c, cn].
    eexists _, cn. split_and!; [done..|].
    intros k' [->|Hin]%updated_keys; [|by auto].
    rewrite <- Hdom. apply elem_of_dom. eauto.
  - rewrite (sync_open _ _ _ Hc Hcn).
    destruct (sync_rows _ _ _) as [r'|] eqn:Hr; simpl; [|by exists c, cn].
    exists c, cn. split_and!; [done..| |done]. simpl.
    rewrite (sync_rows_dom _ _ _ _ Hr), Hdom.
    apply set_eq. intros k. rewrite elem_of_union, elem_of_list_to_set.
    naive_solver.
  - by exists c, cn.
Qed.

Lemma run_ops_backed ops s K :
  backed K s →
  backed (foldl live_step K (run_ops ops s).1) (run_ops ops s).2.
Proof.
  revert s K. induction ops as [|o ops IH]; intros s K Hb; [done|].
  simpl. pose proof (run_op_backed o s K Hb) as Hb1.
  destruct (run_call (op_call o) s) as [r s1]. simpl in Hb1.
  specialize (IH s1 _ Hb1).
  destruct (run_ops ops s1) as [tr s2]. done.
Qed.

(** C7.  On a store opened, in either mode, on an empty backing file,
    after any sequence of [set], [delete], [get] and [sync] on text
    keys, interleaved with any mutations of objects by the caller,
    [size] returns the number of keys set and not deleted since,
    whatever the cache holds. *)
Theorem size_counts_live_keys (wb : bool) (w : world) (s0 : state)
    (ops : list op) :
  rows w = ∅ → open "c" wb w = Ok s0 →
  __len__ (run_ops ops s0).2
  = (Ok (size (live_keys (run_ops ops s0).1)), (run_ops ops s0).2).
Proof.
  intros Hrows Hopen. unfold open, __init__ in Hopen. simpl in Hopen.
  injection Hopen as <-.
  match goal with |- context [run_ops ops ?s] => set (s0 := s) end.
  assert (backed ∅ s0) as Hb.
  { exists [], (opened w). split_and!; [done..| |].
    - simpl. rewrite Hrows. apply dom_empty_L.
    - intros k Hin. by apply elem_of_nil in Hin. }
  destruct (run_ops_backed ops s0 ∅ Hb) as (c & cn & _ & Hcn & Hdom & _).
  rewrite (len_eq _ _ Hcn). unfold live_keys. rewrite <- Hdom.
  by rewrite size_dom.
Qed.

End size.

(** ** Round trips *)

Lemma mutations_frame muts s :
  self (mutations muts s) = self s ∧
  rows (env (mutations muts s)) = rows (env s) ∧
  released (env (mutations muts s)) = released (env s).
Proof.
  revert s. induction muts as [|[l o] muts IH]; intros s; [done|].
  change (mutations ((l, o) :: muts) s) with (mutations muts (mutate l o s).2).
  destruct (IH (mutate l o s).2) as (-> & -> & ->). done.
Qed.

Section roundtrip.
Context `{Collaborators}.

Lemma loads_rendered k t s c cn :
  _cache (self s) = Some c → _conn (self s) = Some cn →
  dict_get k c = None →
  rows (env s) !! k = Some (render t) →
  parse (render t) = Some t →
  distinct_keys t →
  ∃ v' s', __getitem__ (VStr k) s = (Ok v', s') ∧
           objects (env s) ⊆ objects (env s') ∧
           denotes (objects (env s')) t v'.
Proof.
  intros Hc Hcn Hk Hrow Hparse Hdk.
  rewrite (getitem_eq _ _ _ _ Hc Hcn), Hk, Hrow, Hparse.
  eexists _, _. split; [done|]. simpl.
  by apply alloc_denotes.
Qed.

(** C1.  On an open store, in either mode, for a text key and a
    supported value of shape [t] that the codec carries faithfully,
    [set] returns and the [get] that follows returns a value of the
    same shape [t]: structurally equal to the value stored, which still
    has that shape. *)
Theorem set_then_get_roundtrip (s : state) (k : string) (v : value)
    (t : jtree) :
  is_open s →
  denotes (objects (env s)) t v →
  parse (render t) = Some t →
  ∃ s1 s2 v',
    __setitem__ (VStr k) v s = (Ok tt, s1) ∧
    __getitem__ (VStr k) s1 = (Ok v', s2) ∧
    denotes (objects (env s2)) t v' ∧
    denotes (objects (env s2)) t v.
Proof.
  intros [[c Hc] [cn Hcn]] Hd Hparse.
  rewrite (setitem_eq _ _ _ _ _ Hc Hcn), (json_dumps_denotes _ _ _ Hd).
  set (s1 := set_cache (Some (updated (writeback (self s)) k v c))
               (set_rows (<[k:=render t]> (rows (env s))) s)).
  assert (_cache (self s1) = Some (updated (writeback (self s)) k v c))
    as Hc1 by done.
  assert (_conn (self s1) = Some cn) as Hcn1 by done.
  unfold updated in Hc1.
  destruct (writeback (self s) && is_dict_or_list v) eqn:Hwb.
  - exists s1, s1, v.
    rewrite (getitem_eq _ _ _ _ Hc1 Hcn1), dict_get_set_eq. done.
  - destruct (loads_rendered k t s1 _ cn Hc1 Hcn1)
      as (v' & s2 & Hget & Hsub & Hd').
    + apply dict_get_pop_eq.
    + simpl. apply lookup_insert_eq.
    + done.
    + by eapply denotes_distinct_keys.
    + exists s1, s2, v'. split_and!; [done..|].
      by eapply denotes_mono.
Qed.

(** C2.  In write-back mode, let [get] return a list or a dict, let the
    caller then mutate objects so that the value has shape [t], which
    the codec carries faithfully, every value of the cache still being
    supported.  Then [sync], and [close] as well, returns, and on a
    store opened afterwards on the same backing file, in either mode,
    [get] returns a value of shape [t]. *)
Theorem writeback_mutation_persists (s s1 : state) (k : string) (l : loc)
    (muts : list (loc * obj)) (t : jtree) (closing wb' : bool) :
  reachable s →
  writeback (self s) = true →
  __getitem__ (VStr k) s = (Ok (VRef l), s1) →
  let s2 := mutations muts s1 in
  denotes (objects (env s2)) t (VRef l) →
  parse (render t) = Some t →
  (∀ c, _cache (self s2) = Some c →
        Forall (λ kv, ∃ t', denotes (objects (env s2)) t' kv.2) c) →
  ∃ s3 s4 s5 v',
    (if closing then close else sync) s2 = (Ok tt, s3) ∧
    open "c" wb' (env s3) = Ok s4 ∧
    __getitem__ (VStr k) s4 = (Ok v', s5) ∧
    denotes (objects (env s5)) t v'.
Proof.
  intros Hreach Hwb Hget s2 Hd Hparse Hsupp.
  pose proof (reachable_inv _ Hreach) as Hinv.
  pose proof (getitem_inv (VStr k) s Hinv) as Hinv1.
  rewrite Hget in Hinv1. simpl in Hinv1.
  destruct (cache_inv_cases s Hinv) as [Hcl|(c & cn & Hc & Hcn & Hok)].
  { destruct (closed_methods s (VStr k) VNone Hcl) as (_ & _ & _ & Hg & _).
    by rewrite Hg in Hget. }
  (* the entry of the cache for [k] is the list returned *)
  assert (∃ c1, _cache (self s1) = Some c1 ∧ _conn (self s1) = Some cn ∧
                (k, VRef l) ∈ c1 ∧ rows (env s1) = rows (env s)) as
    (c1 & Hc1 & Hcn1 & Hin & Hrows1).
  { rewrite (getitem_eq _ _ _ _ Hc Hcn) in Hget.
    destruct (dict_get k c) as [v|] eqn:Hk.
    - injection Hget as -> <-. exists c. split_and!; [done..| |done].
      by apply dict_get_Some_elem.
    - destruct (rows (env s) !! k); [|done].
      destruct (parse _) as [t0|]; [|done].
      injection Hget as Hv <-. eexists. split_and!; [done..| |done].
      rewrite Hv, Hwb. unfold updated. simpl.
      apply dict_get_Some_elem, dict_get_set_eq. }
  destruct (Hinv1) as [_ Hok1]. destruct (Hok1 _ Hc1) as (Hnd & _ & _).
  destruct (mutations_frame muts s1) as (Hself & Hrows2 & Hrel2).
  fold s2 in Hself, Hrows2, Hrel2.
  assert (_cache (self s2) = Some c1) as Hc2 by (by rewrite Hself).
  assert (_conn (self s2) = Some cn) as Hcn2 by (by rewrite Hself).
  (* [sync] returns and writes the text of the mutated value *)
  destruct (sync_rows_ok (objects (env s2)) c1 (rows (env s2)) (Hsupp _ Hc2))
    as [r' Hr'].
  assert (sync s2 = (Ok tt, set_rows r' s2)) as Hsync.
  { by rewrite (sync_open _ _ _ Hc2 Hcn2), Hr'. }
  destruct (sync_rows_lookup _ _ _ _ _ _ Hr' Hnd Hin) as (jstr & Hj & Hrow).
  rewrite (json_dumps_denotes _ _ _ Hd) in Hj. injection Hj as <-.
  set (s3 := if closing then closed_after cn (set_rows r' s2)
             else set_rows r' s2).
  assert ((if closing then close else sync) s2 = (Ok tt, s3)) as Hflush.
  { subst s3. destruct closing; [|done]. by apply close_open_ok. }
  assert (rows (env s3) = r') as Hrows3 by (subst s3; by destruct closing).
  assert (objects (env s3) = objects (env s2)) as Hobj3
    by (subst s3; by destruct closing).
  (* the store opened next finds that text *)
  assert (∃ s4, open "c" wb' (env s3) = Ok s4 ∧
                _cache (self s4) = Some [] ∧
                _conn (self s4) = Some (opened (env s3)) ∧
                rows (env s4) = r' ∧
                objects (env s4) = objects (env s2)) as
    (s4 & Hopen & Hc4 & Hcn4 & Hrows4 & Hobj4).
  { eexists. split; [reflexivity|]. simpl. by rewrite Hrows3, Hobj3. }
  destruct (loads_rendered k t s4 [] _ Hc4 Hcn4) as (v' & s5 & Hget5 & _ & Hd5).
  - done.
  - by rewrite Hrows4.
  - done.
  - by eapply denotes_distinct_keys.
  - by exists s3, s4, s5, v'.
Qed.

End roundtrip.

(** ** The claims on concrete stores *)

Section concrete.
Import RefCodec.

Example open_fresh wb : open "c" wb empty_world = Ok (fresh_store wb).
Proof. reflexivity. Qed.

Example broken_store_reached :
  run_calls [CMutate 1%positive (OList []); CSet (VStr "x") (VRef 1%positive);
             CMutate 1%positive (OList [VOther 0%nat])] (fresh_store true)
  = broken_store.
Proof. vm_compute. reflexivity. Qed.

Example broken_store_sync :
  sync broken_store = (Raise TypeError_json, broken_store).
Proof. vm_compute. reflexivity. Qed.

Lemma setitem_failure_atomic_witness :
  __setitem__ (VInt 42) (VStr "v") pending_store
    = (Raise TypeError_key, pending_store) ∧
  __setitem__ (VStr "bar") (VOther 0%nat) pending_store
    = (Raise TypeError_json, pending_store).
Proof.
  split.
  - destruct (setitem_failure_atomic pending_store (VInt 42) (VStr "v"))
      as (Hkey & _ & _).
    apply Hkey. reflexivity.
  - destruct (setitem_failure_atomic pending_store (VStr "bar")
                (VOther 0%nat)) as (_ & Hvalue & _).
    apply Hvalue; reflexivity.
Defined.

Lemma absent_key_witness :
  __getitem__ (VStr "foo") pending_store
    = (Raise (KeyError "foo"), pending_store) ∧
  __delitem__ (VStr "foo") pending_store = (Ok tt, pending_store) ∧
  __contains__ (VStr "foo") pending_store = (Ok false, pending_store).
Proof.
  apply (absent_key pending_store "foo").
  - split; eexists; reflexivity.
  - intros [[x Hx]|[x Hx]]; vm_compute in Hx; discriminate Hx.
Defined.

(** C3 fails as stated: on a closed store [get] with an integer key
    raises the key [TypeError], and [set] with a text key and an
    unserialisable value raises json's [TypeError], not
    [CupboardClosedError]. *)
Lemma closed_store_other_errors :
  let s := (close (fresh_store false)).2 in
  is_closed s ∧
  __getitem__ (VInt 42) s = (Raise TypeError_key, s) ∧
  __setitem__ (VStr "k") (VOther 0%nat) s = (Raise TypeError_json, s) ∧
  ¬ closed_store_always_ClosedError.
Proof.
  split; [split; reflexivity|].
  split; [reflexivity|].
  split; [reflexivity|].
  intros Hall.
  destruct (Hall (close (fresh_store false)).2 (VInt 42) VNone) as [Hget _];
    [split; reflexivity|].
  discriminate Hget.
Qed.

Lemma closed_store_rejects_witness :
  let s := (close pending_store).2 in
  is_closed s ∧
  __delitem__ (VStr "bar") s = (Raise CupboardClosedError, s) ∧
  __iter__ s = (Raise CupboardClosedError, s) ∧
  __len__ s = (Raise CupboardClosedError, s) ∧
  __getitem__ (VStr "bar") s = (Raise CupboardClosedError, s) ∧
  __setitem__ (VStr "bar") (VInt 1) s = (Raise CupboardClosedError, s).
Proof.
  assert (is_closed (close pending_store).2) as Hcl by (split; reflexivity).
  split; [exact Hcl|].
  exact (closed_store_rejects (close pending_store).2 (VStr "bar") (VInt 1) Hcl).
Defined.

Lemma close_idempotent_witness :
  let s1 := closed_after 0%nat (sync pending_store).2 in
  close pending_store = (Ok tt, s1) ∧
  is_closed s1 ∧
  rows (env s1) = rows (env (sync pending_store).2) ∧
  released (env s1) = [0%nat] ∧
  close (Nat.iter 3%nat (λ x, (close x).2) s1) = (Ok tt, s1).
Proof.
  apply (close_idempotent pending_store (sync pending_store).2 0%nat 3%nat).
  - reflexivity.
  - vm_compute. reflexivity.
Defined.

(** C10 fails as stated: after a [close] whose [sync] raised, [get]
    with an integer key raises the key [TypeError], not
    [CupboardClosedError]. *)
Lemma failed_close_other_errors :
  let s1 := (close broken_store).2 in
  close broken_store = (Raise TypeError_json, s1) ∧
  __getitem__ (VInt 42) s1 = (Raise TypeError_key, s1) ∧
  ¬ failed_close_always_ClosedError.
Proof.
  split; [vm_compute; reflexivity|].
  split; [reflexivity|].
  intros Hall.
  destruct (Hall broken_store broken_store TypeError_json (VInt 42) VNone)
    as (_ & _ & _ & Hget & _).
  - split; eexists; reflexivity.
  - exact broken_store_sync.
  - discriminate Hget.
Qed.

Lemma close_failing_sync_witness :
  let s1 := set_cache None (set_conn None broken_store) in
  close broken_store = (Raise TypeError_json, s1) ∧
  is_closed s1 ∧
  rows (env s1) = rows (env broken_store) ∧
  released (env s1) = [] ∧
  close s1 = (Ok tt, s1) ∧
  __delitem__ (VStr "x") s1 = (Raise CupboardClosedError, s1) ∧
  __iter__ s1 = (Raise CupboardClosedError, s1) ∧
  __len__ s1 = (Raise CupboardClosedError, s1) ∧
  __getitem__ (VStr "x") s1 = (Raise CupboardClosedError, s1) ∧
  __setitem__ (VStr "x") (VInt 1) s1 = (Raise CupboardClosedError, s1).
Proof.
  apply (close_failing_sync broken_store broken_store TypeError_json
           (VStr "x") (VInt 1)).
  - split; eexists; reflexivity.
  - vm_compute. reflexivity.
Defined.

(** C9, at the failing input.  In a store holding an entry for the
    text key ["42"], [delete] with the integer key [42] returns and the
    entry is gone: sqlite compares the key column as TEXT with the
    parameter converted to TEXT.  With write-back on and a list stored
    under ["42"], the row goes and the cache entry stays. *)
Theorem delitem_int_key_removes_text_row :
  let s := run_calls [CSet (VStr "42") (VInt 1)] (fresh_store false) in
  let s' := (__delitem__ (VInt 42) s).2 in
  let w := run_calls [CMutate 1%positive (OList []); CSet (VStr "42") (VRef 1%positive)]
             (fresh_store true) in
  let w' := (__delitem__ (VInt 42) w).2 in
  rows (env s) !! "42"%string = Some "1"%string ∧
  __delitem__ (VInt 42) s = (Ok tt, s') ∧
  rows (env s') !! "42"%string = None ∧
  s' ≠ s ∧
  __delitem__ (VInt 42) w = (Ok tt, w') ∧
  rows (env w') !! "42"%string = None ∧
  _cache (self w') = Some [("42"%string, VRef 1%positive)].
Proof.
  split_and!; try (vm_compute; reflexivity).
  intros Heq. apply (f_equal (λ x, rows (env x) !! "42"%string)) in Heq.
  vm_compute in Heq. discriminate Heq.
Qed.

Lemma run_calls_reachable cs s : reachable s → reachable (run_calls cs s).
Proof.
  revert s. induction cs as [|c cs IH]; intros s Hs; [done|].
  simpl. apply IH. by constructor.
Qed.

Lemma fresh_store_reachable wb : reachable (fresh_store wb).
Proof. by apply (reachable_open "c" wb empty_world). Qed.

Lemma pending_store_reachable : reachable pending_store.
Proof. apply run_calls_reachable, fresh_store_reachable. Qed.

Lemma cache_holds_mutable_only_witness :
  reachable pending_store ∧
  (∀ c, _cache (self pending_store) = Some c →
        Forall (λ kv, is_dict_or_list kv.2 = true) c ∧
        (c ≠ [] → writeback (self pending_store) = true)) ∧
  (∀ key v s', is_dict_or_list v = false →
        __setitem__ key v pending_store = (Ok tt, s') → ¬ cached key s') ∧
  (∀ key s', __delitem__ key pending_store = (Ok tt, s') → ¬ cached key s') ∧
  (∀ key v s', is_dict_or_list v = false →
        __getitem__ key pending_store = (Ok v, s') → ¬ cached key s').
Proof.
  split; [exact pending_store_reachable|].
  exact (cache_holds_mutable_only pending_store pending_store_reachable).
Defined.

Example scenario_live_keys wb :
  live_keys (run_ops scenario (fresh_store wb)).1
  = ({[ "bar"%string; "baz"%string ]} : gset string).
Proof. destruct wb; vm_compute; reflexivity. Qed.

Lemma size_counts_live_keys_witness :
  rows empty_world = ∅ ∧
  open "c" true empty_world = Ok (fresh_store true) ∧
  __len__ (run_ops scenario (fresh_store true)).2
  = (Ok (size (live_keys (run_ops scenario (fresh_store true)).1)),
     (run_ops scenario (fresh_store true)).2).
Proof.
  split; [reflexivity|]. split; [reflexivity|].
  apply (size_counts_live_keys true empty_world (fresh_store true) scenario).
  - reflexivity.
  - reflexivity.
Defined.

Lemma list_store_denotes wb :
  denotes (objects (env (list_store wb))) list_shape (VRef 1%positive).
Proof.
  apply denotes_list. exists 1%positive, [VStr "a"; VStr "b"; VInt 42].
  split; [reflexivity|]. split; [by destruct wb|].
  repeat constructor.
Defined.

Lemma set_then_get_roundtrip_witness : roundtrip_at false ∧ roundtrip_at true.
Proof.
  split.
  - apply (set_then_get_roundtrip (list_store false) "bar" (VRef 1%positive)
             list_shape).
    + split; eexists; reflexivity.
    + apply list_store_denotes.
    + vm_compute. reflexivity.
  - apply (set_then_get_roundtrip (list_store true) "bar" (VRef 1%positive)
             list_shape).
    + split; eexists; reflexivity.
    + apply list_store_denotes.
    + vm_compute. reflexivity.
Defined.

Lemma dict_store_denotes :
  denotes (objects (env (mutations dict_mutation dict_store))) dict_shape
    (VRef 1%positive).
Proof.
  apply denotes_dict. exists 1%positive, [(VStr "a", VInt 2)].
  split; [reflexivity|]. split; [reflexivity|].
  split; [apply NoDup_singleton|]. repeat constructor.
Defined.

Lemma dict_store_reachable : reachable dict_store.
Proof. apply run_calls_reachable, fresh_store_reachable. Qed.

Lemma dict_store_supported c :
  _cache (self (mutations dict_mutation dict_store)) = Some c →
  Forall (λ kv, ∃ t', denotes
            (objects (env (mutations dict_mutation dict_store))) t' kv.2) c.
Proof.
  intros Hc. vm_compute in Hc. injection Hc as <-.
  constructor; [|constructor]. exists dict_shape. apply dict_store_denotes.
Qed.

Lemma writeback_mutation_persists_witness :
  persists_at false false ∧ persists_at true true.
Proof.
  split.
  - apply (writeback_mutation_persists dict_store dict_store "x" 1%positive
             dict_mutation dict_shape false false).
    + exact dict_store_reachable.
    + reflexivity.
    + vm_compute. reflexivity.
    + apply dict_store_denotes.
    + vm_compute. reflexivity.
    + exact dict_store_supported.
  - apply (writeback_mutation_persists dict_store dict_store "x" 1%positive
             dict_mutation dict_shape true true).
    + exact dict_store_reachable.
    + reflexivity.
    + vm_compute. reflexivity.
    + apply dict_store_denotes.
    + vm_compute. reflexivity.
    + exact dict_store_supported.
Defined.

End concrete.

(** * Further properties *)

Section reads.
Context `{Collaborators}.

Lemma getitem_hit k s c v :
  _cache (self s) = Some c → dict_get k c = Some v →
  __getitem__ (VStr k) s = (Ok v, s).
Proof.
  intros Hc Hk. unfold __getitem__, bind, cache, ret. by rewrite Hc, Hk.
Qed.

Lemma getitem_no_cache key s :
  _cache (self s) = None → ∃ e, __getitem__ key s = (Raise e, s).
Proof.
  intros Hc. destruct key; try (by eexists).
  unfold __getitem__, bind, cache. rewrite Hc. by eexists.
Qed.

Lemma getitem_no_conn k s c :
  _cache (self s) = Some c → dict_get k c = None → _conn (self s) = None →
  __getitem__ (VStr k) s = (Raise CupboardClosedError, s).
Proof.
  intros Hc Hk Hcn. unfold __getitem__, bind, cache, conn.
  by rewrite Hc, Hk, Hcn.
Qed.

Lemma getitem_frame key s :
  rows (env (__getitem__ key s).2) = rows (env s) ∧
  released (env (__getitem__ key s).2) = released (env s) ∧
  opened (env (__getitem__ key s).2) = opened (env s) ∧
  _conn (self (__getitem__ key s).2) = _conn (self s) ∧
  writeback (self (__getitem__ key s).2) = writeback (self s).
Proof.
  destruct key as [| | | |k| |]; try done.
  destruct (_cache (self s)) as [c|] eqn:Hc.
  - destruct (dict_get k c) as [v|] eqn:Hk.
    + by rewrite (getitem_hit _ _ _ _ Hc Hk).
    + destruct (_conn (self s)) as [cn|] eqn:Hcn.
      * rewrite (getitem_eq _ _ _ _ Hc Hcn), Hk.
        destruct (rows (env s) !! k); [|done].
        by destruct (parse _).
      * by rewrite (getitem_no_conn _ _ _ Hc Hk Hcn).
  - by destruct (getitem_no_cache (VStr k) s Hc) as [e ->].
Qed.

(** X1.  Reading never writes: [get], [contains], [size] and iteration,
    with any argument and in any state of the store, leave every row
    and the log of releases as they were; [size] and iteration change
    nothing at all. *)
Theorem reads_never_write (s : state) (key : value) :
  rows (env (__getitem__ key s).2) = rows (env s) ∧
  released (env (__getitem__ key s).2) = released (env s) ∧
  rows (env (__contains__ key s).2) = rows (env s) ∧
  released (env (__contains__ key s).2) = released (env s) ∧
  (__len__ s).2 = s ∧
  (__iter__ s).2 = s.
Proof.
  destruct (getitem_frame key s) as (Hr & Hrel & _).
  rewrite contains_state. split_and!; try done.
  - unfold __len__, bind, conn, execute_LEN, ret.
    by destruct (_conn (self s)).
  - unfold __iter__, bind, conn, execute_ITER.
    by destruct (_conn (self s)).
Qed.

(** X2.  With write-back on, [get] hands out the cached object itself:
    once [get] has returned a list or a dict, every later [get] of the
    key returns the same object and changes nothing, whatever the
    caller has done to objects in between. *)
Theorem writeback_get_same_object (s s1 : state) (k : string) (l : loc)
    (muts : list (loc * obj)) :
  writeback (self s) = true →
  __getitem__ (VStr k) s = (Ok (VRef l), s1) →
  __getitem__ (VStr k) (mutations muts s1)
  = (Ok (VRef l), mutations muts s1).
Proof.
  intros Hwb Hget.
  assert (∃ c1, _cache (self s1) = Some c1 ∧ dict_get k c1 = Some (VRef l))
    as (c1 & Hc1 & Hk1).
  { destruct (_cache (self s)) as [c|] eqn:Hc.
    - destruct (dict_get k c) as [v|] eqn:Hk.
      + rewrite (getitem_hit _ _ _ _ Hc Hk) in Hget.
        injection Hget as -> <-. eauto.
      + destruct (_conn (self s)) as [cn|] eqn:Hcn.
        * rewrite (getitem_eq _ _ _ _ Hc Hcn), Hk in Hget.
          destruct (rows (env s) !! k); [|done].
          destruct (parse _); [|done].
          injection Hget as Hv <-. eexists. split; [done|].
          rewrite Hv, Hwb. unfold updated. simpl. apply dict_get_set_eq.
        * by rewrite (getitem_no_conn _ _ _ Hc Hk Hcn) in Hget.
    - destruct (getitem_no_cache (VStr k) s Hc) as [e He].
      by rewrite He in Hget. }
  destruct (mutations_frame muts s1) as (Hself & _).
  apply (getitem_hit _ _ c1); [by rewrite Hself|done].
Qed.

End reads.

Section syncing.
Context `{Collaborators}.

Lemma sync_cases s :
  (∃ e, sync s = (Raise e, s)) ∨
  sync s = (Ok tt, s) ∨
  ∃ c cn r', _cache (self s) = Some c ∧ _conn (self s) = Some cn ∧
             sync_rows (objects (env s)) c (rows (env s)) = Ok r' ∧
             sync s = (Ok tt, set_rows r' s).
Proof.
  destruct (_cache (self s)) as [c|] eqn:Hc.
  - destruct (_conn (self s)) as [cn|] eqn:Hcn.
    + rewrite (sync_open _ _ _ Hc Hcn).
      destruct (sync_rows _ _ _) as [r'|e] eqn:Hr; [|by eauto].
      right. right. by exists c, cn, r'.
    + unfold sync, bind, cache, with_conn, conn. rewrite Hc.
      destruct c; [by auto|]. rewrite Hcn. by eauto.
  - left. rewrite (sync_closed _ Hc). by eauto.
Qed.

(** X3.  [sync] is all or nothing: when it raises, nothing has been
    written, the state is the one it was called in. *)
Theorem sync_failure_changes_nothing (s s' : state) (e : exn) :
  sync s = (Raise e, s') → s' = s.
Proof.
  intros Hsync.
  destruct (sync_cases s) as [[e' He]|[Hok|(c & cn & r' & _ & _ & _ & Hok)]];
    rewrite ?He, ?Hok in Hsync; by simplify_eq.
Qed.

Lemma sync_rows_fixed h c r r' :
  NoDup c.*1 → sync_rows h c r = Ok r' → sync_rows h c r' = Ok r'.
Proof.
  revert r. induction c as [|[k v] c IH]; intros r Hnd; simpl; [done|].
  simpl in Hnd. apply NoDup_cons in Hnd as [Hnin Hnd].
  destruct (json_dumps h v) as [jstr|]; [|done]. intros Hr.
  assert (r' !! k = Some jstr) as Hk.
  { rewrite (sync_rows_lookup_notin _ _ _ _ _ Hr Hnin).
    apply lookup_insert_eq. }
  rewrite (insert_id _ _ _ Hk). by eapply IH.
Qed.

(** X4.  When [sync] returns in a reachable state, the store object and
    the heap are as before, the row of every key of the cache is the
    text of its value as it is now, every row of a key that is not in
    the cache is untouched, and a second [sync] changes nothing. *)
Theorem sync_writes_the_cache (s s' : state) :
  reachable s → sync s = (Ok tt, s') →
  self s' = self s ∧
  objects (env s') = objects (env s) ∧
  released (env s') = released (env s) ∧
  (∀ c k v, _cache (self s) = Some c → dict_get k c = Some v →
     ∃ jstr, json_dumps (objects (env s)) v = Ok jstr ∧
             rows (env s') !! k = Some jstr) ∧
  (∀ c k, _cache (self s) = Some c → dict_get k c = None →
     rows (env s') !! k = rows (env s) !! k) ∧
  sync s' = (Ok tt, s').
Proof.
  intros Hinv%reachable_inv Hsync.
  destruct (cache_inv_cases s Hinv) as [[Hc _]|(c & cn & Hc & Hcn & Hok)].
  { by rewrite (sync_closed _ Hc) in Hsync. }
  destruct Hok as (Hnd & _ & _).
  rewrite (sync_open _ _ _ Hc Hcn) in Hsync.
  destruct (sync_rows _ _ _) as [r'|] eqn:Hr; [|done].
  injection Hsync as <-. split_and!; try done.
  - intros c' k v Hc' Hk. rewrite Hc in Hc'. injection Hc' as <-.
    apply dict_get_Some_elem in Hk.
    by eapply sync_rows_lookup.
  - intros c' k Hc' Hk. rewrite Hc in Hc'. injection Hc' as <-.
    apply dict_get_None in Hk. simpl.
    by eapply sync_rows_lookup_notin.
  - rewrite (sync_open (set_rows r' s) c cn) by done. simpl.
    by rewrite (sync_rows_fixed _ _ _ _ Hnd Hr).
Qed.

(** X5.  With write-back off [sync] does nothing, as its docstring
    says, and [close] writes nothing: in a reachable state of an open
    store [sync] returns and leaves the state as it is, and [close]
    returns, releases the connection and leaves the rows as they
    are. *)
Theorem plain_sync_does_nothing (s : state) (cn : connection) :
  reachable s → writeback (self s) = false → _conn (self s) = Some cn →
  sync s = (Ok tt, s) ∧
  close s = (Ok tt, closed_after cn s) ∧
  rows (env (closed_after cn s)) = rows (env s).
Proof.
  intros Hinv%reachable_inv Hwb Hcn.
  destruct (cache_inv_cases s Hinv) as [[_ Hcn']|(c & cn' & Hc & _ & Hok)].
  { by rewrite Hcn in Hcn'. }
  destruct Hok as (_ & _ & Hempty). specialize (Hempty Hwb). subst c.
  assert (sync s = (Ok tt, s)) as Hsync.
  { unfold sync, bind, cache. by rewrite Hc. }
  split_and!; [done| |done].
  by apply close_open_ok.
Qed.

End syncing.

Section composing.
Context `{Collaborators}.

Lemma alloc_fresh t h l :
  distinct_keys t → (alloc t h).1 = VRef l → l ∉ dom h.
Proof.
  intros Hdk. destruct t as [| | | | |ts|kts]; try done.
  - apply distinct_keys_list in Hdk.
    assert (Forall alloc_ok ts) as Hok.
    { eapply Forall_impl; [exact Hdk|]. intros t. apply alloc_denotes. }
    destruct (alloc_list_ok ts h Hok) as [Hsub _]. revert Hsub.
    simpl. destruct (alloc_list alloc ts h) as [vs h1]. simpl.
    intros Hsub%subseteq_dom [= <-].
    pose proof (is_fresh (dom h1)). set_solver.
  - apply distinct_keys_dict in Hdk as [Hnd Hdk].
    assert (Forall (λ kt, alloc_ok kt.2) kts) as Hok.
    { eapply Forall_impl; [exact Hdk|]. intros kt. apply alloc_denotes. }
    destruct (alloc_items_ok kts [] h Hok Hnd) as [Hsub _].
    { intros k _. apply not_elem_of_nil. }
    revert Hsub.
    simpl. destruct (alloc_items alloc kts [] h) as [d h1]. simpl.
    intros Hsub%subseteq_dom [= <-].
    pose proof (is_fresh (dom h1)). set_solver.
Qed.

(** X6.  With write-back off no identity is kept across reads: in a
    reachable state of an open store, whatever the caller has done to
    the objects handed out before, [get] of a key whose row holds the
    text of a tree [t] returns a value of shape [t], and when that
    value is a list or a dict it is a new object, at a location the
    heap did not have. *)
Theorem plain_get_rereads (s : state) (k jstr : string) (t : jtree)
    (muts : list (loc * obj)) :
  reachable s → is_open s → writeback (self s) = false →
  rows (env s) !! k = Some jstr → parse jstr = Some t → distinct_keys t →
  let s1 := mutations muts s in
  ∃ v s2,
    __getitem__ (VStr k) s1 = (Ok v, s2) ∧
    denotes (objects (env s2)) t v ∧
    (∀ l, v = VRef l → l ∉ dom (objects (env s1))) ∧
    self s2 = self s ∧ rows (env s2) = rows (env s).
Proof.
  intros Hinv%reachable_inv [[c Hc] [cn Hcn]] Hwb Hrow Hparse Hdk s1.
  destruct Hinv as [_ Hok]. destruct (Hok _ Hc) as (_ & _ & Hempty).
  specialize (Hempty Hwb). subst c.
  destruct (mutations_frame muts s) as (Hself & Hrows & _).
  fold s1 in Hself, Hrows.
  assert (_cache (self s1) = Some []) as Hc1 by (by rewrite Hself).
  assert (_conn (self s1) = Some cn) as Hcn1 by (by rewrite Hself).
  rewrite (getitem_eq _ _ _ _ Hc1 Hcn1). simpl.
  rewrite Hrows, Hrow, Hparse.
  eexists _, _. split; [done|]. simpl. split_and!.
  - by apply alloc_denotes.
  - intros l. by apply alloc_fresh.
  - rewrite Hself, Hwb. unfold updated. simpl.
    destruct s as [[wb c0 cn0] w]. simpl in *. by subst.
  - done.
Qed.

(** X7.  A deleted key stays deleted.  On an open store [delete] of a
    text key returns; after it [get] of the key raises [KeyError] and
    [contains] is false, and this is still so after a [sync], whether
    that [sync] returns or raises: the entry of the cache went with
    the row, so nothing writes the key back. *)
Theorem delete_stays_deleted (s : state) (k : string) :
  is_open s →
  ∃ s1, __delitem__ (VStr k) s = (Ok tt, s1) ∧
        __getitem__ (VStr k) s1 = (Raise (KeyError k), s1) ∧
        __contains__ (VStr k) s1 = (Ok false, s1) ∧
        __getitem__ (VStr k) (sync s1).2 = (Raise (KeyError k), (sync s1).2).
Proof.
  intros [[c Hc] [cn Hcn]].
  rewrite (delitem_str_eq _ _ _ _ Hc Hcn).
  set (s1 := set_cache (Some (dict_pop k c))
               (set_rows (delete k (rows (env s))) s)).
  assert (_cache (self s1) = Some (dict_pop k c)) as Hc1 by done.
  assert (_conn (self s1) = Some cn) as Hcn1 by done.
  assert (∀ s2, self s2 = self s1 → rows (env s2) !! k = None →
            __getitem__ (VStr k) s2 = (Raise (KeyError k), s2)) as Hgone.
  { intros s2 Hself Hrow.
    rewrite (getitem_eq k s2 (dict_pop k c) cn) by (by rewrite Hself).
    by rewrite dict_get_pop_eq, Hrow. }
  assert (__getitem__ (VStr k) s1 = (Raise (KeyError k), s1)) as Hget.
  { apply Hgone; [done|]. simpl. apply lookup_delete_eq. }
  exists s1. split_and!; [done|done| |].
  - unfold __contains__. by rewrite Hget.
  - rewrite (sync_open _ _ _ Hc1 Hcn1).
    destruct (sync_rows _ _ _) as [r'|] eqn:Hr; simpl; [|done].
    apply Hgone; [done|]. simpl.
    rewrite (sync_rows_lookup_notin _ _ _ _ k Hr).
    + simpl. apply lookup_delete_eq.
    + rewrite dict_pop_keys. tauto.
Qed.

(** X8.  A value that is neither a list nor a dict, once stored, is not
    overwritten by an older cached value: after [set] of such a value
    on an open store the key has no entry in the cache, and after a
    [sync], whether it returns or raises, the row of the key still
    holds the text of that value. *)
Theorem scalar_write_survives_sync (s : state) (k jstr : string) (v : value) :
  is_open s → is_dict_or_list v = false →
  json_dumps (objects (env s)) v = Ok jstr →
  ∃ s1, __setitem__ (VStr k) v s = (Ok tt, s1) ∧
        rows (env s1) !! k = Some jstr ∧
        ¬ cached (VStr k) s1 ∧
        rows (env (sync s1).2) !! k = Some jstr.
Proof.
  intros [[c Hc] [cn Hcn]] Hv Hj.
  rewrite (setitem_eq _ _ _ _ _ Hc Hcn), Hj.
  set (s1 := set_cache (Some (updated (writeback (self s)) k v c))
               (set_rows (<[k:=jstr]> (rows (env s))) s)).
  assert (updated (writeback (self s)) k v c = dict_pop k c) as Hupd.
  { unfold updated. by rewrite Hv, andb_false_r. }
  assert (_cache (self s1) = Some (dict_pop k c)) as Hc1
    by (subst s1; simpl; by rewrite Hupd).
  assert (_conn (self s1) = Some cn) as Hcn1 by done.
  exists s1. split_and!; [done| | |].
  - simpl. apply lookup_insert_eq.
  - unfold cached. rewrite Hc1, dict_get_pop_eq. by intros [??].
  - rewrite (sync_open _ _ _ Hc1 Hcn1).
    destruct (sync_rows _ _ _) as [r'|] eqn:Hr; simpl.
    + rewrite (sync_rows_lookup_notin _ _ _ _ k Hr).
      * simpl. apply lookup_insert_eq.
      * rewrite dict_pop_keys. tauto.
    + apply lookup_insert_eq.
Qed.

Lemma updated_get_ne wb k k' v c :
  k' ≠ k → dict_get k' (updated wb k v c) = dict_get k' c.
Proof.
  intros Hne. unfold updated. destruct (wb && is_dict_or_list v).
  - by rewrite dict_get_set_ne, dict_get_pop_ne.
  - by rewrite dict_get_pop_ne.
Qed.

(** X9.  Writes are local to their key.  On an open store, after
    [set] or [delete] on a text key, whether it returned or raised,
    [get] of any other text key ends as it would have ended before:
    the same value or the same exception. *)
Theorem writes_are_local (s : state) (k k' : string) (v : value) :
  is_open s → k' ≠ k →
  (__getitem__ (VStr k') (__setitem__ (VStr k) v s).2).1
    = (__getitem__ (VStr k') s).1 ∧
  (__getitem__ (VStr k') (__delitem__ (VStr k) s).2).1
    = (__getitem__ (VStr k') s).1.
Proof.
  intros [[c Hc] [cn Hcn]] Hne. split.
  - rewrite (setitem_eq _ _ _ _ _ Hc Hcn).
    destruct (json_dumps _ v) as [jstr|]; [|done]. cbn [snd].
    rewrite (getitem_eq k' _ (updated (writeback (self s)) k v c) cn)
      by done.
    rewrite (getitem_eq _ _ _ _ Hc Hcn), updated_get_ne by done. simpl.
    rewrite lookup_insert_ne by done.
    destruct (dict_get k' c); [done|].
    destruct (rows (env s) !! k'); [|done]. by destruct (parse _).
  - rewrite (delitem_str_eq _ _ _ _ Hc Hcn). cbn [snd].
    rewrite (getitem_eq k' _ (dict_pop k c) cn) by done.
    rewrite (getitem_eq _ _ _ _ Hc Hcn), dict_get_pop_ne by done. simpl.
    rewrite lookup_delete_ne by done.
    destruct (dict_get k' c); [done|].
    destruct (rows (env s) !! k'); [|done]. by destruct (parse _).
Qed.

(** X10.  How [size] moves.  On an open store a [set] that returns
    adds one to [size] when the key had no row and leaves it when it
    had one; a [set] that raises leaves it; [delete] of a text key
    takes one off when the key had a row and leaves it otherwise. *)
Theorem size_after_write (s : state) (k : string) (v : value) :
  is_open s →
  let n := size (rows (env s)) in
  __len__ s = (Ok n, s) ∧
  (__len__ (__setitem__ (VStr k) v s).2).1 =
    Ok (match (__setitem__ (VStr k) v s).1, rows (env s) !! k with
        | Ok _, None => S n
        | _, _ => n
        end) ∧
  (__len__ (__delitem__ (VStr k) s).2).1 =
    Ok (match rows (env s) !! k with
        | Some _ => pred n
        | None => n
        end).
Proof.
  intros [[c Hc] [cn Hcn]] n. split_and!.
  - by apply (len_eq _ cn).
  - rewrite (setitem_eq _ _ _ _ _ Hc Hcn).
    destruct (json_dumps _ v) as [jstr|]; cbn [fst snd].
    + rewrite (len_eq _ cn) by done. simpl. rewrite map_size_insert.
      by destruct (rows (env s) !! k).
    + rewrite (len_eq _ cn) by done. simpl.
      by destruct (rows (env s) !! k).
  - rewrite (delitem_str_eq _ _ _ _ Hc Hcn). cbn [snd].
    rewrite (len_eq _ cn) by done. simpl. rewrite map_size_delete.
    by destruct (rows (env s) !! k).
Qed.

(** X11.  Iteration and [size] agree.  On an open store iteration
    yields every key that has a row, each once, and no other, and
    [size] is the number of keys it yields; neither changes the
    store. *)
Theorem iter_yields_the_keys (s : state) :
  is_open s →
  ∃ ks, __iter__ s = (Ok ks, s) ∧
        NoDup ks ∧
        (∀ k, k ∈ ks ↔ is_Some (rows (env s) !! k)) ∧
        __len__ s = (Ok (length ks), s).
Proof.
  intros [_ [cn Hcn]]. rewrite (iter_eq _ _ Hcn), (len_eq _ _ Hcn).
  eexists. split; [done|]. split_and!.
  - apply NoDup_elements.
  - intros k. by rewrite elem_of_elements, elem_of_dom.
  - by rewrite <- size_dom.
Qed.

(** X12.  Every [set] is committed at once, in both modes: as soon as
    [set] has returned on an open store, a store opened on the same
    backing file, without any [sync] or [close] of the first, finds
    under the key the text [set] wrote, and [get] there returns a value
    of the shape stored, when the codec carries it faithfully. *)
Theorem set_is_committed (s : state) (k : string) (v : value) (t : jtree)
    (wb' : bool) :
  is_open s →
  denotes (objects (env s)) t v →
  parse (render t) = Some t →
  ∃ s1 s2 s3 v',
    __setitem__ (VStr k) v s = (Ok tt, s1) ∧
    open "c" wb' (env s1) = Ok s2 ∧
    rows (env s2) !! k = Some (render t) ∧
    __getitem__ (VStr k) s2 = (Ok v', s3) ∧
    denotes (objects (env s3)) t v'.
Proof.
  intros [[c Hc] [cn Hcn]] Hd Hparse.
  rewrite (setitem_eq _ _ _ _ _ Hc Hcn), (json_dumps_denotes _ _ _ Hd).
  set (s1 := set_cache _ _).
  assert (∃ s2, open "c" wb' (env s1) = Ok s2 ∧
                _cache (self s2) = Some [] ∧
                _conn (self s2) = Some (opened (env s1)) ∧
                rows (env s2) = <[k:=render t]> (rows (env s)))
    as (s2 & Hopen & Hc2 & Hcn2 & Hrows2).
  { eexists. split; [reflexivity|]. done. }
  assert (rows (env s2) !! k = Some (render t)) as Hrow
    by (rewrite Hrows2; apply lookup_insert_eq).
  destruct (loads_rendered k t s2 [] _ Hc2 Hcn2) as (v' & s3 & Hget & _ & Hd');
    [done..|by eapply denotes_distinct_keys|].
  by exists s1, s2, s3, v'.
Qed.

End composing.

Section lifecycle.
Context `{Collaborators}.

(** X13.  A store used as a context manager is closed when the block
    is left, whether the block returned or raised.  When [close]
    returns, the outcome of the block, value or exception, is the
    outcome of the whole; when [close] raises, its exception is. *)
Theorem with_block_closes {A} (body : M A) (s : state) :
  is_closed (with_store body s).2 ∧
  (with_store body s).2 = (close (body s).2).2 ∧
  (with_store body s).1 =
    match (close (body s).2).1 with
    | Ok _ => (body s).1
    | Raise e => Raise e
    end.
Proof.
  unfold with_store, __enter__, __exit__, try_finally, bind, ret.
  destruct (body s) as [r s1]. simpl.
  pose proof (close_is_closed s1) as Hcl.
  destruct (close s1) as [[[]|e] s2]; done.
Qed.

(** X14.  Finalisation after [close] does nothing: [__del__] on a store
    that has been closed returns and changes nothing, so the connection
    is not released again; on a store that still holds its connection
    it is [close]. *)
Theorem del_after_close (s : state) :
  __del__ (close s).2 = (Ok tt, (close s).2) ∧
  (is_Some (_conn (self s)) → __del__ s = close s).
Proof.
  split.
  - destruct (close_is_closed s) as [_ Hcn]. unfold __del__. by rewrite Hcn.
  - intros [cn Hcn]. unfold __del__. by rewrite Hcn.
Qed.

Lemma world_ok_same w w' :
  released w' = released w → opened w' = opened w → world_ok w → world_ok w'.
Proof. unfold world_ok. by intros -> ->. Qed.

Lemma conn_live_same s s' :
  _conn (self s') = _conn (self s) →
  released (env s') = released (env s) → opened (env s') = opened (env s) →
  conn_live s → conn_live s'.
Proof.
  intros Hcn Hrel Hop [Hw Hlive]. split.
  - by eapply world_ok_same.
  - intros cn. rewrite Hcn, Hrel, Hop. apply Hlive.
Qed.

Lemma sync_frame s :
  self (sync s).2 = self s ∧
  released (env (sync s).2) = released (env s) ∧
  opened (env (sync s).2) = opened (env s).
Proof.
  destruct (sync_cases s) as [[e ->]|[->|(c & cn & r' & _ & _ & _ & ->)]];
    done.
Qed.

Lemma close_conn_live s : conn_live s → conn_live (close s).2.
Proof.
  intros [[Hnd Hlt] Hlive].
  destruct (sync_frame s) as (Hself & Hrel & Hop).
  destruct (close_is_closed s) as [_ Hcn'].
  split; [|intros cn; by rewrite Hcn'].
  unfold close, try_finally, try_except_closed, bind at 1.
  destruct (sync s) as [[[]|e] s1] eqn:Hsync; simpl in Hself, Hrel, Hop.
  - unfold bind, conn, conn_close, modify.
    destruct (_conn (self s1)) as [cn|] eqn:Hcn; simpl.
    + rewrite Hself in Hcn. destruct (Hlive cn Hcn) as [Hcn_lt Hcn_nin].
      split; simpl; rewrite ?Hrel, ?Hop.
      * by apply NoDup_cons.
      * intros cn' [->|Hin]%elem_of_cons; auto.
    + split; simpl; by rewrite ?Hrel, ?Hop.
  - destruct e; simpl; split; simpl; by rewrite ?Hrel, ?Hop.
Qed.

Lemma setitem_frame key v s :
  _conn (self (__setitem__ key v s).2) = _conn (self s) ∧
  released (env (__setitem__ key v s).2) = released (env s) ∧
  opened (env (__setitem__ key v s).2) = opened (env s).
Proof.
  destruct key as [| | | |k| |]; try done.
  destruct s as [[wb [c|] [cn|]] [h r o rel]];
    cbv [__setitem__ bind dumps with_conn conn execute_SET modify
         _update_cache cache ret set_rows set_cache self env _cache _conn
         writeback objects rows opened released fst snd];
    destruct (json_dumps h v); try done;
    by destruct (wb && is_dict_or_list v).
Qed.

Lemma delitem_frame key s :
  _conn (self (__delitem__ key s).2) = _conn (self s) ∧
  released (env (__delitem__ key s).2) = released (env s) ∧
  opened (env (__delitem__ key s).2) = opened (env s).
Proof.
  destruct s as [[wb [c|] [cn|]] [h r o rel]];
    cbv [__delitem__ bind with_conn conn execute_DEL lift cache modify ret
         set_rows set_cache self env _cache _conn writeback objects rows
         opened released fst snd];
    destruct (sql_bind key) as [x|]; try done;
    destruct (key_matching x); try done;
    by destruct (cache_pop key c).
Qed.
Lemma run_call_conn_live c s : conn_live s → conn_live (run_call c s).2.
Proof.
  intros Hlive.
  destruct c as [key|key v|key|key| | | | |l o]; simpl;
    rewrite ?void_state, ?contains_state.
  - destruct (getitem_frame key s) as (_ & Hrel & Hop & Hcn & _).
    by eapply conn_live_same.
  - destruct (setitem_frame key v s) as (Hcn & Hrel & Hop).
    by eapply conn_live_same.
  - destruct (delitem_frame key s) as (Hcn & Hrel & Hop).
    by eapply conn_live_same.
  - destruct (getitem_frame key s) as (_ & Hrel & Hop & Hcn & _).
    by eapply conn_live_same.
  - unfold __len__, bind, conn, execute_LEN, ret.
    by destruct (_conn (self s)).
  - unfold __iter__, bind, conn, execute_ITER.
    by destruct (_conn (self s)).
  - destruct (sync_frame s) as (Hself & Hrel & Hop).
    eapply conn_live_same; [by rewrite Hself|done..].
  - by apply close_conn_live.
  - by eapply conn_live_same.
Qed.

(** X15.  The store never holds a released connection and never
    releases one twice.  Start from a backing file whose log of
    releases names each connection once and only connections that were
    opened; open a store and make any calls, with any arguments, [close]
    among them, going on after exceptions.  Then the log still names
    each connection at most once, and the connection the store holds,
    if it holds one, is not in the log. *)
Theorem connection_never_reused (flag : string) (wb : bool) (w : world)
    (s0 : state) (cs : list call) :
  world_ok w → open flag wb w = Ok s0 →
  let s := run_calls cs s0 in
  NoDup (released (env s)) ∧
  ∀ cn, _conn (self s) = Some cn → cn ∉ released (env s).
Proof.
  intros Hw Hopen s.
  assert (conn_live s0) as Hlive0.
  { unfold open, __init__ in Hopen. case_decide; [|done].
    injection Hopen as <-. destruct Hw as [Hnd Hlt]. split.
    - split; [done|]. simpl. intros cn Hin%Hlt. lia.
    - simpl. intros cn [= <-]. split; [lia|].
      intros Hin%Hlt. lia. }
  assert (conn_live s) as [[Hnd _] Hlive].
  { subst s. clear Hopen. revert s0 Hlive0.
    induction cs as [|c cs IH]; intros s0 Hlive0; [done|].
    simpl. apply IH. by apply run_call_conn_live. }
  split; [done|]. intros cn Hcn. by destruct (Hlive cn Hcn).
Qed.

(** X16.  [sync] neither adds nor removes a key.  On a store opened on
    any backing file, after any sequence of [set], [delete], [get] and
    [sync] on text keys and mutations by the caller, every key of the
    cache has a row, so that a [sync], whether it returns or raises,
    leaves the set of keys, and with it [size], as it was. *)
Theorem sync_keeps_the_keys (wb : bool) (w : world) (s0 : state)
    (ops : list op) :
  open "c" wb w = Ok s0 →
  let s := (run_ops ops s0).2 in
  (∀ k, cached (VStr k) s → is_Some (rows (env s) !! k)) ∧
  dom (rows (env (sync s).2)) = dom (rows (env s)) ∧
  __len__ (sync s).2 = (Ok (size (rows (env s))), (sync s).2).
Proof.
  intros Hopen s. unfold open, __init__ in Hopen. simpl in Hopen.
  injection Hopen as <-.
  match goal with s := (run_ops ops ?x).2 |- _ => set (s0 := x) in * end.
  assert (backed (dom (rows w)) s0) as Hb.
  { exists [], (opened w). split_and!; [done..|].
    intros k Hin. by apply elem_of_nil in Hin. }
  destruct (run_ops_backed ops s0 _ Hb) as (c & cn & Hc & Hcn & Hdom & Hsub).
  fold s in Hc, Hcn, Hdom.
  assert (dom (rows (env (sync s).2)) = dom (rows (env s))) as Hkeep.
  { rewrite (sync_open _ _ _ Hc Hcn).
    destruct (sync_rows _ _ _) as [r'|] eqn:Hr; simpl; [|done].
    rewrite (sync_rows_dom _ _ _ _ Hr). apply set_eq. intros k.
    rewrite elem_of_union, elem_of_list_to_set, Hdom. naive_solver. }
  split_and!; [|done|].
  - intros k. unfold cached. rewrite Hc. intros [v Hv].
    apply elem_of_dom. rewrite Hdom. apply Hsub.
    apply dict_get_Some_elem in Hv.
    apply list_elem_of_fmap. by exists (k, v).
  - destruct (sync_frame s) as (Hself & _).
    rewrite (len_eq _ cn) by (by rewrite Hself).
    by rewrite <- !size_dom, Hkeep.
Qed.

End lifecycle.

Section deleting.
Context `{Collaborators}.

(** X17.  [delete] with a key that is not text, on an open store.  It
    never raises the key [TypeError] of [get] and [set]; it leaves the
    store object, cache included, and the heap as they were; it adds
    no row and changes none, so that the rows after are among the rows
    before.  With [None] it returns and nothing has changed.  With a
    list, a dict or another object sqlite3 cannot bind it raises
    [ProgrammingError], and with an integer outside 64 bits
    [OverflowError], and nothing has changed. *)
Theorem delete_non_text_key (s : state) (key : value) :
  is_open s → is_str key = false →
  let r := (__delitem__ key s).1 in
  let s' := (__delitem__ key s).2 in
  r ≠ Raise TypeError_key ∧
  self s' = self s ∧
  objects (env s') = objects (env s) ∧
  rows (env s') ⊆ rows (env s) ∧
  (key = VNone → r = Ok tt ∧ s' = s) ∧
  (sql_bind key = Raise ProgrammingError →
     r = Raise ProgrammingError ∧ s' = s) ∧
  (sql_bind key = Raise OverflowError → r = Raise OverflowError ∧ s' = s).
Proof.
  intros [[c Hc] [cn Hcn]] Hkey.
  rewrite (delitem_eq _ _ _ _ Hc Hcn).
  destruct s as [[wb c0 cn0] [h rw o rel]]. simpl in Hc, Hcn. subst c0 cn0.
  destruct key as [|b|z|f|k|l|n]; try done; simpl;
    try case_bool_decide; simpl; split_and!; try done;
    apply delete_subseteq.
Qed.

End deleting.

(** ** The further properties on concrete stores *)

Section concrete_further.
Import RefCodec.

Lemma writeback_get_same_object_witness :
  __getitem__ (VStr "x") (mutations dict_mutation dict_store)
  = (Ok (VRef 1%positive), mutations dict_mutation dict_store).
Proof.
  apply (writeback_get_same_object dict_store dict_store "x" 1%positive
           dict_mutation).
  - reflexivity.
  - vm_compute. reflexivity.
Defined.

Lemma sync_failure_changes_nothing_witness :
  (sync broken_store).1 = Raise TypeError_json ∧
  (sync broken_store).2 = broken_store.
Proof.
  split; [vm_compute; reflexivity|].
  apply (sync_failure_changes_nothing broken_store (sync broken_store).2
           TypeError_json).
  vm_compute. reflexivity.
Defined.

Lemma pending_store_sync :
  sync pending_store = (Ok tt, (sync pending_store).2).
Proof. vm_compute. reflexivity. Qed.

Lemma sync_writes_the_cache_witness :
  let s := pending_store in
  let s' := (sync pending_store).2 in
  self s' = self s ∧
  objects (env s') = objects (env s) ∧
  released (env s') = released (env s) ∧
  (∀ c k v, _cache (self s) = Some c → dict_get k c = Some v →
     ∃ jstr, json_dumps (objects (env s)) v = Ok jstr ∧
             rows (env s') !! k = Some jstr) ∧
  (∀ c k, _cache (self s) = Some c → dict_get k c = None →
     rows (env s') !! k = rows (env s) !! k) ∧
  sync s' = (Ok tt, s').
Proof.
  exact (sync_writes_the_cache pending_store (sync pending_store).2
           pending_store_reachable pending_store_sync).
Defined.

Lemma list_store_reachable wb : reachable (list_store wb).
Proof. apply run_calls_reachable, fresh_store_reachable. Qed.

Lemma plain_sync_does_nothing_witness :
  sync (list_store false) = (Ok tt, list_store false) ∧
  close (list_store false) = (Ok tt, closed_after 0%nat (list_store false)) ∧
  rows (env (closed_after 0%nat (list_store false)))
  = rows (env (list_store false)).
Proof.
  apply (plain_sync_does_nothing (list_store false) 0%nat).
  - apply list_store_reachable.
  - reflexivity.
  - reflexivity.
Defined.

Lemma plain_get_rereads_witness :
  let s := run_calls [CSet (VStr "bar") (VRef 1%positive)] (list_store false) in
  let s1 := mutations [(1%positive, OList [])] s in
  ∃ v s2,
    __getitem__ (VStr "bar") s1 = (Ok v, s2) ∧
    denotes (objects (env s2)) list_shape v ∧
    (∀ l, v = VRef l → l ∉ dom (objects (env s1))) ∧
    self s2 = self s ∧ rows (env s2) = rows (env s).
Proof.
  apply (plain_get_rereads
           (run_calls [CSet (VStr "bar") (VRef 1%positive)] (list_store false))
           "bar" (render_tree list_shape) list_shape
           [(1%positive, OList [])]).
  - apply run_calls_reachable, list_store_reachable.
  - split; eexists; reflexivity.
  - reflexivity.
  - vm_compute. reflexivity.
  - vm_compute. reflexivity.
  - apply distinct_keys_list. repeat constructor.
Defined.

Lemma pending_store_open : is_open pending_store.
Proof. split; eexists; reflexivity. Qed.

Lemma delete_stays_deleted_witness :
  ∃ s1, __delitem__ (VStr "bar") pending_store = (Ok tt, s1) ∧
        __getitem__ (VStr "bar") s1 = (Raise (KeyError "bar"), s1) ∧
        __contains__ (VStr "bar") s1 = (Ok false, s1) ∧
        __getitem__ (VStr "bar") (sync s1).2
        = (Raise (KeyError "bar"), (sync s1).2).
Proof.
  exact (delete_stays_deleted pending_store "bar" pending_store_open).
Defined.

Lemma scalar_write_survives_sync_witness :
  ∃ s1, __setitem__ (VStr "bar") (VInt 7) pending_store = (Ok tt, s1) ∧
        rows (env s1) !! "bar"%string = Some "7"%string ∧
        ¬ cached (VStr "bar") s1 ∧
        rows (env (sync s1).2) !! "bar"%string = Some "7"%string.
Proof.
  apply (scalar_write_survives_sync pending_store "bar" "7" (VInt 7)).
  - exact pending_store_open.
  - reflexivity.
  - vm_compute. reflexivity.
Defined.

Lemma writes_are_local_witness :
  (__getitem__ (VStr "bar")
     (__setitem__ (VStr "foo") (VInt 1) pending_store).2).1
    = (__getitem__ (VStr "bar") pending_store).1 ∧
  (__getitem__ (VStr "bar") (__delitem__ (VStr "foo") pending_store).2).1
    = (__getitem__ (VStr "bar") pending_store).1.
Proof.
  apply (writes_are_local pending_store "foo" "bar" (VInt 1)).
  - exact pending_store_open.
  - discriminate.
Defined.

Lemma size_after_write_witness :
  let n := size (rows (env pending_store)) in
  __len__ pending_store = (Ok n, pending_store) ∧
  (__len__ (__setitem__ (VStr "foo") (VInt 1) pending_store).2).1 =
    Ok (match (__setitem__ (VStr "foo") (VInt 1) pending_store).1,
              rows (env pending_store) !! "foo"%string with
        | Ok _, None => S n
        | _, _ => n
        end) ∧
  (__len__ (__delitem__ (VStr "foo") pending_store).2).1 =
    Ok (match rows (env pending_store) !! "foo"%string with
        | Some _ => pred n
        | None => n
        end).
Proof.
  exact (size_after_write pending_store "foo" (VInt 1) pending_store_open).
Defined.

Lemma iter_yields_the_keys_witness :
  ∃ ks, __iter__ pending_store = (Ok ks, pending_store) ∧
        NoDup ks ∧
        (∀ k, k ∈ ks ↔ is_Some (rows (env pending_store) !! k)) ∧
        __len__ pending_store = (Ok (length ks), pending_store).
Proof.
  exact (iter_yields_the_keys pending_store pending_store_open).
Defined.

Lemma set_is_committed_witness :
  ∃ s1 s2 s3 v',
    __setitem__ (VStr "bar") (VRef 1%positive) (list_store true)
      = (Ok tt, s1) ∧
    open "c" false (env s1) = Ok s2 ∧
    rows (env s2) !! "bar"%string = Some (render list_shape) ∧
    __getitem__ (VStr "bar") s2 = (Ok v', s3) ∧
    denotes (objects (env s3)) list_shape v'.
Proof.
  apply (set_is_committed (list_store true) "bar" (VRef 1%positive)
           list_shape false).
  - split; eexists; reflexivity.
  - apply list_store_denotes.
  - vm_compute. reflexivity.
Defined.

Lemma empty_world_ok : world_ok empty_world.
Proof.
  split; [constructor|]. intros cn Hin. by apply elem_of_nil in Hin.
Qed.

Lemma connection_never_reused_witness :
  let s := run_calls [CSet (VStr "foo") (VInt 1); CClose; CClose;
                      CGet (VStr "foo"); CDel (VInt 42)] (fresh_store true) in
  NoDup (released (env s)) ∧
  ∀ cn, _conn (self s) = Some cn → cn ∉ released (env s).
Proof.
  apply (connection_never_reused "c" true empty_world (fresh_store true)).
  - exact empty_world_ok.
  - reflexivity.
Defined.

Lemma sync_keeps_the_keys_witness :
  let s := (run_ops scenario (fresh_store true)).2 in
  (∀ k, cached (VStr k) s → is_Some (rows (env s) !! k)) ∧
  dom (rows (env (sync s).2)) = dom (rows (env s)) ∧
  __len__ (sync s).2 = (Ok (size (rows (env s))), (sync s).2).
Proof.
  apply (sync_keeps_the_keys true empty_world (fresh_store true) scenario).
  reflexivity.
Defined.

Lemma delete_non_text_key_witness :
  let r := (__delitem__ VNone pending_store).1 in
  let s' := (__delitem__ VNone pending_store).2 in
  r ≠ Raise TypeError_key ∧
  self s' = self pending_store ∧
  objects (env s') = objects (env pending_store) ∧
  rows (env s') ⊆ rows (env pending_store) ∧
  (VNone = VNone → r = Ok tt ∧ s' = pending_store) ∧
  (sql_bind VNone = Raise ProgrammingError →
     r = Raise ProgrammingError ∧ s' = pending_store) ∧
  (sql_bind VNone = Raise OverflowError →
     r = Raise OverflowError ∧ s' = pending_store).
Proof.
  exact (delete_non_text_key pending_store VNone pending_store_open eq_refl).
Defined.

End concrete_further.
